(** * phc-sdk-go, package client: the Lambda-backed GraphQL / HTTP adapter

    A shallow embedding of [client.go] (type [Client]) and of its sibling
    file (type [LambdaClient], the same code with two more error checks in
    [Do]), and the properties the specification states about them.

    - Go strings are byte sequences: they are modelled by [string], whose
      characters ([ascii]) are the bytes.
    - Go maps keyed by strings are [gmap string _]; a map that may be
      [nil] is an [option] of one.
    - A Go function returning [(T, error)] returns a [result T].
    - The calls of [Invoker.Invoke] are kept as events of a computation
      ([prog]), so that a property can speak of the calls made, of their
      arguments, and of any answer of the gateway.
    - The panics of the Go runtime (an index out of range, a [nil]
      reader) and [log.Fatalf] are outcomes of a computation.

    The packages the code calls are modelled from their documented
    behaviour, to the extent the code depends on it: [strings.IndexAny],
    [encoding/json] ([Marshal] and [Unmarshal] on the types used here, with
    the JSON text itself: module [json]), [unicode/utf8] (module [utf8]),
    [context], [io/ioutil], [net/http].  The file has two parts: the
    definitions, then the properties: first those the specification
    states, then further ones read off the code (the ways [Do] and [Gql]
    end, where their errors come from, what a gateway reads of a payload
    and what the code reads of an answer, the policy header, the façades
    of the sibling file). *)

From Stdlib Require Import ZArith Ascii String List Bool Lia.
From stdpp Require Import base option strings gmap list sorting.

Local Open Scope string_scope.

(** ** Go's [error] values

    [errors.New] builds an error from its message.  The errors of the JSON
    decoder, of the transport and of a body reader are values of the
    libraries' own types; the model keeps them apart by constructor. *)
Inductive error : Type :=
| errorString (msg : string)
| SyntaxError
| UnmarshalTypeError
| UnsupportedTypeError
| externalError (tag : string).

(** A Go call returning [(T, error)]: [Err e] is the return with
    [err != nil], whose value component is [nil] here. *)
Inductive result (A : Type) : Type :=
| Ok (a : A)
| Err (e : error).
Arguments Ok {A} a.
Arguments Err {A} e.

(** ** Package [strings] and string slicing *)

(** [strings.IndexAny(s, chars)] for a set [chars] of ASCII characters: the
    byte index of the first byte of [s] that occurs in [chars], or [-1]. *)
Fixpoint IndexAny (s chars : string) : Z :=
  match s with
  | EmptyString => (-1)%Z
  | String c rest =>
      if existsb (Ascii.eqb c) (list_ascii_of_string chars) then 0%Z
      else match IndexAny rest chars with
           | Zneg _ => (-1)%Z
           | i => Z.succ i
           end
  end.

(** [s[lo:hi]] and [s[lo:]] for indices within range. *)
Definition slice (s : string) (lo hi : Z) : string :=
  substring (Z.to_nat lo) (Z.to_nat (hi - lo)) s.

Definition slice_from (s : string) (lo : Z) : string :=
  substring (Z.to_nat lo) (String.length s - Z.to_nat lo) s.

(** ** [parseUri] *)
Definition parseUri (uri : string) : result (string * string) :=
  let index := IndexAny uri "/" in
  if (index =? -1)%Z then Err (errorString "Invalid URL provided")
  else
    let functionName := slice uri 0 index in
    let path := slice_from uri index in
    Ok (functionName, path).

(** The routing string contains the byte ['/']. *)
Definition has_slash (uri : string) : Prop :=
  In "/"%char (list_ascii_of_string uri).


(** ** Bytes and UTF-8 (package [unicode/utf8]) *)

(** The value of a byte, and the byte of a value below 256. *)
Definition byte_val (c : ascii) : Z := Z.of_N (N_of_ascii c).
Definition byte_of (z : Z) : ascii := ascii_of_N (Z.to_N z).
Definition in_range (lo hi : Z) (c : ascii) : bool :=
  (lo <=? byte_val c)%Z && (byte_val c <=? hi)%Z.
Definition dquote : ascii := "034"%char.
Definition backslash : ascii := "\"%char.

Module utf8.
(** A string read the way [utf8.DecodeRuneInString] steps through it: a
    well-formed sequence of one to four bytes (the encoding of one code
    point), or a byte that starts none ([RuneError] of width 1). *)
Inductive chunk : Type :=
| Valid (bytes : string)
| Invalid (b : ascii).

(** The well-formed sequences, by the ranges of their bytes: no overlong
    form, no surrogate, nothing above U+10FFFF. *)

Definition is_ascii (b : ascii) : bool := (byte_val b <? 0x80)%Z.
Definition cont (b : ascii) : bool := in_range 0x80 0xBF b.
Definition seq2 (b0 b1 : ascii) : bool := in_range 0xC2 0xDF b0 && cont b1.
Definition seq3 (b0 b1 b2 : ascii) : bool :=
  (in_range 0xE0 0xE0 b0 && in_range 0xA0 0xBF b1
   || in_range 0xE1 0xEC b0 && cont b1
   || in_range 0xED 0xED b0 && in_range 0x80 0x9F b1
   || in_range 0xEE 0xEF b0 && cont b1) && cont b2.
Definition seq4 (b0 b1 b2 b3 : ascii) : bool :=
  (in_range 0xF0 0xF0 b0 && in_range 0x90 0xBF b1
   || in_range 0xF1 0xF3 b0 && cont b1
   || in_range 0xF4 0xF4 b0 && in_range 0x80 0x8F b1) && cont b2 && cont b3.

Fixpoint chunks (s : string) : list chunk :=
  match s with
  | EmptyString => []
  | String b0 s1 =>
      if is_ascii b0 then Valid (String b0 "") :: chunks s1
      else
        match s1 with
        | String b1 s2 =>
            if seq2 b0 b1 then Valid (String b0 (String b1 "")) :: chunks s2
            else
              match s2 with
              | String b2 s3 =>
                  if seq3 b0 b1 b2
                  then Valid (String b0 (String b1 (String b2 ""))) :: chunks s3
                  else
                    match s3 with
                    | String b3 s4 =>
                        if seq4 b0 b1 b2 b3
                        then Valid (String b0 (String b1 (String b2 (String b3 ""))))
                               :: chunks s4
                        else Invalid b0 :: chunks s1
                    | EmptyString => Invalid b0 :: chunks s1
                    end
              | EmptyString => Invalid b0 :: chunks s1
              end
        | EmptyString => Invalid b0 :: chunks s1
        end
  end.

(** The encoding of U+FFFD, the replacement character. *)
Definition replacement : string :=
  String (byte_of 0xEF) (String (byte_of 0xBF) (String (byte_of 0xBD) "")).

(** [utf8.EncodeRune]: the bytes of a code point; a surrogate or a value
    out of range is written as U+FFFD. *)
Definition EncodeRune (r : Z) : string :=
  if (r <? 0x80)%Z then String (byte_of r) ""
  else if (r <? 0x800)%Z then
    String (byte_of (Z.lor 0xC0 (Z.shiftr r 6)))
      (String (byte_of (Z.lor 0x80 (Z.land r 0x3F))) "")
  else if ((0xD800 <=? r) && (r <? 0xE000) || (0x10FFFF <? r))%Z then replacement
  else if (r <? 0x10000)%Z then
    String (byte_of (Z.lor 0xE0 (Z.shiftr r 12)))
      (String (byte_of (Z.lor 0x80 (Z.land (Z.shiftr r 6) 0x3F)))
         (String (byte_of (Z.lor 0x80 (Z.land r 0x3F))) ""))
  else
    String (byte_of (Z.lor 0xF0 (Z.shiftr r 18)))
      (String (byte_of (Z.lor 0x80 (Z.land (Z.shiftr r 12) 0x3F)))
         (String (byte_of (Z.lor 0x80 (Z.land (Z.shiftr r 6) 0x3F)))
            (String (byte_of (Z.lor 0x80 (Z.land r 0x3F))) ""))).

Definition chunk_bytes (c : chunk) : string :=
  match c with Valid bytes => bytes | Invalid _ => replacement end.

(** The string with every byte that starts no well-formed sequence
    replaced by U+FFFD: what the JSON encoder and decoder coerce a string
    to. *)
Definition ToValidUTF8 (s : string) : string :=
  foldr (fun c acc => chunk_bytes c ++ acc) "" (chunks s).

Definition chunk_ok (c : chunk) : bool :=
  match c with Valid _ => true | Invalid _ => false end.

(** [utf8.ValidString] *)
Definition ValidString (s : string) : bool := forallb chunk_ok (chunks s).
End utf8.

(** ** JSON text (package [encoding/json], the text layer)

    [encode] writes a JSON value the way [Marshal] writes it: no white
    space; in strings, the quote and the backslash escaped, line feed,
    carriage return and tab as [\n], [\r], [\t], the other control
    characters and [<], [>], [&] as [\u00XX], U+2028 and U+2029 as
    [\u2028] and [\u2029], and every byte that is not part of well-formed
    UTF-8 as [\ufffd].  [parse] reads JSON text the way [Unmarshal] does:
    the grammar of RFC 8259, at most 10000 levels of nesting, escapes
    decoded, an unpaired surrogate escape and every ill-formed byte read
    as U+FFFD.  A number is kept as its literal. *)
#[local] Set Warnings "-register-all".
Module json.
Inductive value : Type :=
| Null
| Bool (b : bool)
| Number (lit : string)
| Str (s : string)
| Array (items : list value)
| Object (members : list (string * value)).

(** *** The encoder *)
Definition hex : string := "0123456789abcdef".
Definition hex_digit (n : Z) : ascii :=
  match String.get (Z.to_nat n) hex with Some c => c | None => "0"%char end.

Definition htmlSafe (b : ascii) : bool :=
  (0x20 <=? byte_val b)%Z && (byte_val b <? 0x80)%Z
  && negb (Ascii.eqb b dquote) && negb (Ascii.eqb b "&") && negb (Ascii.eqb b "<")
  && negb (Ascii.eqb b ">") && negb (Ascii.eqb b backslash).

Definition escape_byte (b : ascii) : string :=
  if htmlSafe b then String b ""
  else if Ascii.eqb b backslash || Ascii.eqb b dquote then String backslash (String b "")
  else if Ascii.eqb b (byte_of 10) then String backslash "n"
  else if Ascii.eqb b (byte_of 13) then String backslash "r"
  else if Ascii.eqb b (byte_of 9) then String backslash "t"
  else String backslash
         (String "u" (String "0" (String "0"
            (String (hex_digit (Z.shiftr (byte_val b) 4))
               (String (hex_digit (Z.land (byte_val b) 0xF)) ""))))).

Definition escape_chunk (c : utf8.chunk) : string :=
  match c with
  | utf8.Invalid _ => String backslash "ufffd"
  | utf8.Valid (String b EmptyString) => escape_byte b
  | utf8.Valid bytes =>
      if String.eqb bytes (utf8.EncodeRune 0x2028) then String backslash "u2028"
      else if String.eqb bytes (utf8.EncodeRune 0x2029) then String backslash "u2029"
      else bytes
  end.

Definition escape (s : string) : string :=
  foldr (fun c acc => escape_chunk c ++ acc) "" (utf8.chunks s).

Definition appendString (s : string) : string :=
  String dquote (escape s ++ String dquote "").

Fixpoint encode (v : value) : string :=
  match v with
  | Null => "null"
  | Bool true => "true"
  | Bool false => "false"
  | Number lit => lit
  | Str s => appendString s
  | Array items => "[" ++ String.concat "," (map encode items) ++ "]"
  | Object members =>
      "{" ++ String.concat ","
               (map (fun kv => appendString (fst kv) ++ ":" ++ encode (snd kv)) members)
          ++ "}"
  end.

(** *** The parser *)
Definition is_space (c : ascii) : bool :=
  Ascii.eqb c " " || Ascii.eqb c (byte_of 9) || Ascii.eqb c (byte_of 13)
  || Ascii.eqb c (byte_of 10).

Fixpoint skip_space (s : string) : string :=
  match s with
  | String c rest => if is_space c then skip_space rest else s
  | EmptyString => EmptyString
  end.

Definition is_digit (c : ascii) : bool := in_range 48 57 c.

Definition hex_val (c : ascii) : option Z :=
  if in_range 48 57 c then Some (byte_val c - 48)%Z
  else if in_range 97 102 c then Some (byte_val c - 87)%Z
  else if in_range 65 70 c then Some (byte_val c - 55)%Z
  else None.

(** [getu4]: the code unit written by four hexadecimal digits. *)
Definition getu4 (h1 h2 h3 h4 : ascii) : option Z :=
  match hex_val h1, hex_val h2, hex_val h3, hex_val h4 with
  | Some a, Some b, Some c, Some d => Some (((a * 16 + b) * 16 + c) * 16 + d)%Z
  | _, _, _, _ => None
  end.

Definition is_surrogate (r : Z) : bool := (0xD800 <=? r)%Z && (r <? 0xE000)%Z.

(** [utf16.DecodeRune]: the code point of a surrogate pair, if it is one. *)
Definition decode_pair (r1 r2 : Z) : option Z :=
  if ((0xD800 <=? r1) && (r1 <? 0xDC00) && (0xDC00 <=? r2) && (r2 <? 0xE000))%Z
  then Some (Z.lor (Z.shiftl (r1 - 0xD800) 10) (r2 - 0xDC00) + 0x10000)%Z
  else None.

(** The code unit of a leading [\uXXXX], if the text starts with one. *)
Definition peek_u4 (s : string) : option Z :=
  match s with
  | String c0 (String c1 (String h1 (String h2 (String h3 (String h4 _))))) =>
      if Ascii.eqb c0 backslash && Ascii.eqb c1 "u" then getu4 h1 h2 h3 h4 else None
  | _ => None
  end.

Definition push (c : ascii) (r : option (string * string)) : option (string * string) :=
  match r with Some (s, rest) => Some (String c s, rest) | None => None end.

Definition push_all (p : string) (r : option (string * string)) : option (string * string) :=
  match r with Some (s, rest) => Some (p ++ s, rest) | None => None end.

(** The text after an opening quote, up to its closing quote: the string
    it denotes and the text that follows. *)
Fixpoint unquote (s : string) : option (string * string) :=
  match s with
  | EmptyString => None
  | String c s1 =>
      if Ascii.eqb c dquote then Some ("", s1)
      else if Ascii.eqb c backslash then
        match s1 with
        | EmptyString => None
        | String e s2 =>
            if Ascii.eqb e dquote || Ascii.eqb e backslash || Ascii.eqb e "/"
            then push e (unquote s2)
            else if Ascii.eqb e "b" then push (byte_of 8) (unquote s2)
            else if Ascii.eqb e "f" then push (byte_of 12) (unquote s2)
            else if Ascii.eqb e "n" then push (byte_of 10) (unquote s2)
            else if Ascii.eqb e "r" then push (byte_of 13) (unquote s2)
            else if Ascii.eqb e "t" then push (byte_of 9) (unquote s2)
            else if Ascii.eqb e "u" then
              match s2 with
              | String h1 (String h2 (String h3 (String h4 s6))) =>
                  match getu4 h1 h2 h3 h4 with
                  | None => None
                  | Some rr =>
                      if is_surrogate rr then
                        match peek_u4 s6 with
                        | Some rr1 =>
                            match decode_pair rr rr1, s6 with
                            | Some r, String _ (String _ (String _ (String _
                                        (String _ (String _ s12))))) =>
                                push_all (utf8.EncodeRune r) (unquote s12)
                            | _, _ => push_all utf8.replacement (unquote s6)
                            end
                        | None => push_all utf8.replacement (unquote s6)
                        end
                      else push_all (utf8.EncodeRune rr) (unquote s6)
                  end
              | _ => None
              end
            else None
        end
      else if (byte_val c <? 0x20)%Z then None
      else if utf8.is_ascii c then push c (unquote s1)
      else
        match s1 with
        | String b1 s2 =>
            if utf8.seq2 c b1 then push c (push b1 (unquote s2))
            else
              match s2 with
              | String b2 s3 =>
                  if utf8.seq3 c b1 b2 then push c (push b1 (push b2 (unquote s3)))
                  else
                    match s3 with
                    | String b3 s4 =>
                        if utf8.seq4 c b1 b2 b3
                        then push c (push b1 (push b2 (push b3 (unquote s4))))
                        else push_all utf8.replacement (unquote s1)
                    | EmptyString => push_all utf8.replacement (unquote s1)
                    end
              | EmptyString => push_all utf8.replacement (unquote s1)
              end
        | EmptyString => push_all utf8.replacement (unquote s1)
        end
  end.
(** Numbers: an optional minus sign, an integer part with no leading
    zero, an optional fraction and an optional exponent.  Each scanner
    returns what it read and the text that follows. *)
Fixpoint span_digits (s : string) : string * string :=
  match s with
  | String c rest =>
      if is_digit c then let '(ds, r) := span_digits rest in (String c ds, r)
      else ("", s)
  | EmptyString => ("", "")
  end.

Definition scan_int (s : string) : option (string * string) :=
  match s with
  | String c rest =>
      if Ascii.eqb c "0" then Some ("0", rest)
      else if is_digit c then let '(ds, r) := span_digits rest in Some (String c ds, r)
      else None
  | EmptyString => None
  end.

Definition scan_frac (s : string) : option (string * string) :=
  match s with
  | String c rest =>
      if Ascii.eqb c "." then
        match span_digits rest with
        | (EmptyString, _) => None
        | (ds, r) => Some (String c ds, r)
        end
      else Some ("", s)
  | EmptyString => Some ("", "")
  end.

Definition scan_exp (s : string) : option (string * string) :=
  match s with
  | String c rest =>
      if Ascii.eqb c "e" || Ascii.eqb c "E" then
        let '(sign, rest') :=
          match rest with
          | String d r => if Ascii.eqb d "+" || Ascii.eqb d "-" then (String d "", r)
                          else ("", rest)
          | EmptyString => ("", rest)
          end in
        match span_digits rest' with
        | (EmptyString, _) => None
        | (ds, r) => Some (String c (sign ++ ds), r)
        end
      else Some ("", s)
  | EmptyString => Some ("", "")
  end.

Definition scan_number (s : string) : option (string * string) :=
  let '(sign, s0) :=
    match s with
    | String c r => if Ascii.eqb c "-" then ("-", r) else ("", s)
    | EmptyString => ("", s)
    end in
  '(i, s1) ← scan_int s0;
  '(f, s2) ← scan_frac s1;
  '(e, s3) ← scan_exp s2;
  Some (sign ++ i ++ f ++ e, s3).

(** The decoder's limit on the nesting of arrays and objects. *)
Definition maxNestingDepth : Z := 10000.

(** [strip p s]: the text after the prefix [p] of [s]. *)
Fixpoint strip (p s : string) : option string :=
  match p with
  | EmptyString => Some s
  | String c p' =>
      match s with
      | String d s' => if Ascii.eqb c d then strip p' s' else None
      | EmptyString => None
      end
  end.

(** A value at the head of [s], and the text that follows it.  [depth] is
    the number of arrays and objects open around it; [fuel] bounds the
    recursion, and is spent by one at each value and each further element
    or member. *)
Fixpoint parse_value (fuel : nat) (depth : Z) (s : string) : option (value * string) :=
  match fuel with
  | O => None
  | S fuel =>
      match skip_space s with
      | EmptyString => None
      | String c rest =>
          if Ascii.eqb c "n" then r ← strip "ull" rest; Some (Null, r)
          else if Ascii.eqb c "t" then r ← strip "rue" rest; Some (Bool true, r)
          else if Ascii.eqb c "f" then r ← strip "alse" rest; Some (Bool false, r)
          else if Ascii.eqb c dquote then '(str, r) ← unquote rest; Some (Str str, r)
          else if Ascii.eqb c "[" then
            if (depth <? maxNestingDepth)%Z then
              match skip_space rest with
              | String d r =>
                  if Ascii.eqb d "]" then Some (Array [], r)
                  else '(items, r') ← parse_elements fuel (depth + 1) rest;
                       Some (Array items, r')
              | EmptyString => None
              end
            else None
          else if Ascii.eqb c "{" then
            if (depth <? maxNestingDepth)%Z then
              match skip_space rest with
              | String d r =>
                  if Ascii.eqb d "}" then Some (Object [], r)
                  else '(members, r') ← parse_members fuel (depth + 1) rest;
                       Some (Object members, r')
              | EmptyString => None
              end
            else None
          else if Ascii.eqb c "-" || is_digit c then
            '(lit, r) ← scan_number (String c rest); Some (Number lit, r)
          else None
      end
  end
with parse_elements (fuel : nat) (depth : Z) (s : string)
  : option (list value * string) :=
  match fuel with
  | O => None
  | S fuel =>
      '(v, r) ← parse_value fuel depth s;
      match skip_space r with
      | String c r' =>
          if Ascii.eqb c "," then
            '(vs, r'') ← parse_elements fuel depth r'; Some (v :: vs, r'')
          else if Ascii.eqb c "]" then Some ([v], r')
          else None
      | EmptyString => None
      end
  end
with parse_members (fuel : nat) (depth : Z) (s : string)
  : option (list (string * value) * string) :=
  match fuel with
  | O => None
  | S fuel =>
      match skip_space s with
      | String q r0 =>
          if Ascii.eqb q dquote then
            '(k, r1) ← unquote r0;
            match skip_space r1 with
            | String c r2 =>
                if Ascii.eqb c ":" then
                  '(v, r3) ← parse_value fuel depth r2;
                  match skip_space r3 with
                  | String c' r4 =>
                      if Ascii.eqb c' "," then
                        '(ms, r5) ← parse_members fuel depth r4; Some ((k, v) :: ms, r5)
                      else if Ascii.eqb c' "}" then Some ([(k, v)], r4)
                      else None
                  | EmptyString => None
                  end
                else None
            | EmptyString => None
            end
          else None
      | EmptyString => None
      end
  end.

(** A whole text: one value, white space around it. *)
Definition parse (s : string) : option value :=
  match parse_value (S (String.length s)) 0 s with
  | Some (v, rest) =>
      match skip_space rest with EmptyString => Some v | _ => None end
  | None => None
  end.
End json.
Import json.

(** ** Package [encoding/json]: Go values to and from JSON values *)

(** Go's empty interface [interface{}] ranges over every Go value.  The
    model takes from its context the type of these values, the [nil]
    interface, what [Marshal] writes for one ([None] when it refuses the
    value: a channel, a function, a NaN), and what [Unmarshal] stores for
    a JSON value ([None] when it refuses it: a number out of range). *)
Class GoAny : Type := {
  any : Type;
  nilAny : any;
  marshalAny : any -> option value;
  unmarshalAny : value -> option any;
}.

(** The encoder and the decoder work by the type of the Go value.
    [to_value] is the JSON value written for a Go value ([None] when a
    part of it cannot be encoded); [from_value v old] is the Go value left
    in a variable holding [old] after decoding [v] into it; [zero] is the
    zero value of the type. *)
Class Marshaler (A : Type) : Type := to_value : A -> option value.
Class Unmarshaler (A : Type) : Type := from_value : value -> A -> result A.
Class Zero (A : Type) : Type := zero : A.
Global Hint Mode Marshaler ! : typeclass_instances.
Global Hint Mode Unmarshaler ! : typeclass_instances.
Global Hint Mode Zero ! : typeclass_instances.

(** [json.Marshal(x)] *)
Definition Marshal {A : Type} `{Marshaler A} (x : A) : result string :=
  match to_value x with
  | Some v => Ok (encode v)
  | None => Err UnsupportedTypeError
  end.

(** [json.Unmarshal(data, &x)], returning the new value of [x].  The text
    is checked as a whole before anything is stored; a value of the wrong
    kind for its target makes the call fail. *)
Definition Unmarshal {A : Type} `{Unmarshaler A} (data : string) (x : A) : result A :=
  match parse data with
  | Some v => from_value v x
  | None => Err SyntaxError
  end.

(** The entries of a map in the order [Marshal] writes them: by key,
    bytewise. *)
Definition key_le {A : Type} : relation (string * A) :=
  fun x y => Is_true (String.leb x.1 y.1).

Definition sorted_entries {A : Type} (m : gmap string A) : list (string * A) :=
  merge_sort key_le (map_to_list m).

Global Instance string_Marshaler : Marshaler string := fun s => Some (Str s).
Global Instance bool_Marshaler : Marshaler bool := fun b => Some (Bool b).
Global Instance any_Marshaler `{GoAny} : Marshaler any := marshalAny.
(** A map is written as an object, its keys in order; a [nil] map as
    [null]. *)
Global Instance map_Marshaler {A : Type} `{Marshaler A} : Marshaler (option (gmap string A)) :=
  fun m =>
    match m with
    | None => Some Null
    | Some m =>
        Object <$> mapM (fun kv => v ← to_value kv.2; Some (kv.1, v)) (sorted_entries m)
    end.

Global Instance string_Zero : Zero string := "".
Global Instance bool_Zero : Zero bool := false.
Global Instance int_Zero : Zero Z := 0%Z.
Global Instance map_Zero {A : Type} : Zero (option (gmap string A)) := None.
Global Instance slice_Zero {A : Type} : Zero (list A) := [].
Global Instance any_Zero `{GoAny} : Zero any := nilAny.

(** The value of a run of decimal digits. *)
Fixpoint digits_val (acc : Z) (s : string) : option Z :=
  match s with
  | EmptyString => Some acc
  | String c rest =>
      if is_digit c then digits_val (acc * 10 + (byte_val c - 48)) rest else None
  end.

(** [strconv.ParseInt(lit, 10, 64)] on a JSON number. *)
Definition ParseInt (lit : string) : option Z :=
  let '(neg, ds) :=
    match lit with
    | String c rest => if Ascii.eqb c "-" then (true, rest) else (false, lit)
    | EmptyString => (false, lit)
    end in
  match ds with
  | EmptyString => None
  | _ =>
      n ← digits_val 0 ds;
      let n := if neg : bool then (- n)%Z else n in
      if ((- 2 ^ 63 <=? n) && (n <? 2 ^ 63))%Z then Some n else None
  end.

(** Decoding [null] into a string, a boolean or a number leaves the
    variable as it is; into a map or a slice it stores [nil]. *)
Global Instance string_Unmarshaler : Unmarshaler string :=
  fun v old =>
    match v with
    | Str s => Ok s
    | Null => Ok old
    | _ => Err UnmarshalTypeError
    end.

Global Instance bool_Unmarshaler : Unmarshaler bool :=
  fun v old =>
    match v with
    | Bool b => Ok b
    | Null => Ok old
    | _ => Err UnmarshalTypeError
    end.

Global Instance int_Unmarshaler : Unmarshaler Z :=
  fun v old =>
    match v with
    | Number lit =>
        match ParseInt lit with Some n => Ok n | None => Err UnmarshalTypeError end
    | Null => Ok old
    | _ => Err UnmarshalTypeError
    end.

Global Instance any_Unmarshaler `{GoAny} : Unmarshaler any :=
  fun v _ =>
    match unmarshalAny v with Some x => Ok x | None => Err UnmarshalTypeError end.

Definition rbind {A B : Type} (r : result A) (f : A -> result B) : result B :=
  match r with Ok a => f a | Err e => Err e end.

(** Decoding an object into a map keeps the entries the map has, and
    stores each member, decoded into a zero value, under its key. *)
Fixpoint decode_entries {A : Type} `{Unmarshaler A} `{Zero A}
    (members : list (string * value)) (m : gmap string A) : result (gmap string A) :=
  match members with
  | [] => Ok m
  | (k, v) :: rest =>
      rbind (from_value v zero) (fun x => decode_entries rest (<[k := x]> m))
  end.

Global Instance map_Unmarshaler {A : Type} `{Unmarshaler A} `{Zero A}
  : Unmarshaler (option (gmap string A)) :=
  fun v old =>
    match v with
    | Object members => rbind (decode_entries members (default ∅ old)) (fun m => Ok (Some m))
    | Null => Ok None
    | _ => Err UnmarshalTypeError
    end.

(** Decoding an array into a slice holding [old] gives the slice as many
    elements as the array has.  The element at an index [old] has is
    decoded into the value [old] holds there, so what the JSON element
    does not set stays; an element past the length of [old] is decoded
    into a zero value.  The model does not tell a [nil] slice from an
    empty one: both have length 0; and it keeps no capacity: what Go may
    find past the length of a slice that an earlier decoding had made
    longer is read as zero. *)
Fixpoint decode_items {A : Type} `{Unmarshaler A} `{Zero A}
    (items : list value) (old : list A) : result (list A) :=
  match items with
  | [] => Ok []
  | v :: rest =>
      rbind (from_value v (default zero (head old)))
        (fun x => rbind (decode_items rest (tail old)) (fun xs => Ok (x :: xs)))
  end.

Global Instance slice_Unmarshaler {A : Type} `{Unmarshaler A} `{Zero A}
  : Unmarshaler (list A) :=
  fun v old =>
    match v with
    | Array items => decode_items items old
    | Null => Ok []
    | _ => Err UnmarshalTypeError
    end.

(** Struct fields are found by name, letter case apart; the decoder also
    reads U+017F (long s) as [s] and U+212A (Kelvin sign) as [k].  [name]
    is a field's name, made of ASCII letters. *)
Definition upper (c : ascii) : ascii :=
  if in_range 97 122 c then byte_of (byte_val c - 32) else c.

Fixpoint equalFold (name key : string) : bool :=
  match name, key with
  | EmptyString, EmptyString => true
  | String c name', String d key1 =>
      if utf8.is_ascii d then Ascii.eqb (upper c) (upper d) && equalFold name' key1
      else
        match key1 with
        | String d1 key2 =>
            if Ascii.eqb (upper c) "S" && Ascii.eqb d (byte_of 0xC5)
               && Ascii.eqb d1 (byte_of 0xBF)
            then equalFold name' key2
            else
              match key2 with
              | String d2 key3 =>
                  if Ascii.eqb (upper c) "K" && Ascii.eqb d (byte_of 0xE2)
                     && Ascii.eqb d1 (byte_of 0x84) && Ascii.eqb d2 (byte_of 0xAA)
                  then equalFold name' key3
                  else false
              | EmptyString => false
              end
        | EmptyString => false
        end
  | _, _ => false
  end.

(** Decoding a JSON value into a struct: the members are stored in
    order, [step] storing one (a member that names no field is skipped),
    so a later member with the same key decodes into what an earlier one
    left. *)
Definition decode_struct {A : Type} (step : A -> string -> value -> result A)
    (v : value) (old : A) : result A :=
  match v with
  | Object members =>
      foldl (fun acc kv => rbind acc (fun x => step x kv.1 kv.2)) (Ok old) members
  | Null => Ok old
  | _ => Err UnmarshalTypeError
  end.

(** ** Package [context]

    A context is [context.Background()] or is derived from a parent by
    [WithCancel], [WithDeadline] (of which [WithTimeout] is a case) or
    [WithValue]. *)
Inductive Context : Type :=
| Background
| WithCancel (parent : Context)
| WithDeadline (parent : Context) (deadline : Z)
| WithValue (parent : Context) (key val : string).

(** [ctx.Deadline()]: the earliest deadline on the chain. *)
Fixpoint Deadline (ctx : Context) : option Z :=
  match ctx with
  | Background => None
  | WithCancel parent => Deadline parent
  | WithDeadline parent d =>
      match Deadline parent with
      | Some d' => Some (Z.min d d')
      | None => Some d
      end
  | WithValue parent _ _ => Deadline parent
  end.

(** Whether [ctx.Done()] can ever be closed. *)
Fixpoint cancellable (ctx : Context) : bool :=
  match ctx with
  | Background => false
  | WithCancel _ => true
  | WithDeadline _ _ => true
  | WithValue parent _ _ => cancellable parent
  end.

(** ** The invocation transport

    Of [lambda.InvokeInput] and [lambda.InvokeOutput], the fields the code
    sets and reads. *)
Module InvokeInput.
Record t : Type := mk { FunctionName : string; Payload : string }.
End InvokeInput.

Module InvokeOutput.
Record t : Type := mk { Payload : string }.
End InvokeOutput.

(** A computation that may call [Invoker.Invoke]: it returns, panics, ends
    the process ([log.Fatalf]), or calls the gateway and goes on with what
    the gateway answers. *)
Inductive prog (A : Type) : Type :=
| Ret (a : A)
| Panic (msg : string)
| Fatal (msg : string)
| Invoke (ctx : Context) (input : InvokeInput.t) (k : result InvokeOutput.t -> prog A).
Arguments Ret {A} a.
Arguments Panic {A} msg.
Arguments Fatal {A} msg.
Arguments Invoke {A} ctx input k.

(** How a run against a gateway ends. *)
Inductive outcome (A : Type) : Type :=
| Returned (a : A)
| Panicked (msg : string)
| Exited (msg : string).
Arguments Returned {A} a.
Arguments Panicked {A} msg.
Arguments Exited {A} msg.

(** An [Invoker] test double: a function of the call's arguments.  The
    model covers a client whose invoker is not [nil], and an invoker that
    returns an output with every answer that has no error: the code reads
    [resp.Payload] on such an answer, so a [nil] output without error, like
    a [nil] invoker, is a [nil] dereference at that point, which is no case
    of [run]. *)
Definition gateway : Type := Context -> InvokeInput.t -> result InvokeOutput.t.

(** [run gw p]: the calls [p] makes to [gw], in order, and how [p] ends. *)
Fixpoint run {A : Type} (gw : gateway) (p : prog A)
  : list (Context * InvokeInput.t) * outcome A :=
  match p with
  | Ret a => ([], Returned a)
  | Panic msg => ([], Panicked msg)
  | Fatal msg => ([], Exited msg)
  | Invoke ctx input k =>
      let '(calls, o) := run gw (k (gw ctx input)) in ((ctx, input) :: calls, o)
  end.

(** ** Package [net/http] and [io] *)

(** An [io.Reader] read to its end: the bytes it yields, and the error that
    stopped it if it was not the end of the stream. *)
Module Reader.
Record t : Type := mk { content : string; failure : option error }.
End Reader.

(** [ioutil.ReadAll(r)]; [None] is the panic of a [nil] reader. *)
Definition ReadAll (r : option Reader.t) : option (string * option error) :=
  match r with
  | Some rd => Some (Reader.content rd, Reader.failure rd)
  | None => None
  end.

(** [http.Request]: [URL] is [req.URL.String()], [Header] the header map,
    [Body] the body reader ([nil] for a request without body), [ctx] the
    context set on the request, if any.  The model covers a request that
    is not [nil] and has a URL: on a [nil] request or a [nil] [req.URL],
    [Do] panics on its first line, before anything the model describes. *)
Module Request.
Record t : Type := mk {
  Method : string;
  URL : string;
  Header : gmap string (list string);
  Body : option Reader.t;
  ctx : option Context;
}.

(** [req.Context()] *)
Definition Context (req : t) : Context := default Background (ctx req).
End Request.

(** [http.Response]: [Body] is what the response's body reader yields. *)
Module Response.
Record t : Type := mk {
  Body : string;
  StatusCode : Z;
  Header : gmap string (list string);
}.
End Response.

(** ** The package's types *)
Module payload.
Record t : Type := mk {
  Headers : option (gmap string string);
  Path : string;
  HttpMethod : string;
  QueryStringParameters : option (gmap string string);
  Body : string;
}.
End payload.

Module policy.
Record t : Type := mk { Rules : option (gmap string bool) }.
End policy.

Module responsePayload.
Record t : Type := mk {
  Body : string;
  StatusCode : Z;
  Headers : option (gmap string string);
}.
End responsePayload.

(** An element of [responseBody.Errors]. *)
Module errorItem.
Record t : Type := mk { Message : string }.
End errorItem.

Module responseBody.
Record t `{GoAny} : Type := mk {
  Data : option (gmap string any);
  Errors : list errorItem.t;
}.
Arguments mk {_} Data Errors.
End responseBody.

(** The struct [Body] local to [buildGqlQuery]. *)
Module Body.
Record t `{GoAny} : Type := mk {
  Query : string;
  Variables : option (gmap string any);
}.
Arguments mk {_} Query Variables.
End Body.

(** [Client] (and [LambdaClient], which has the same fields).  The
    [invoker] field has no counterpart: a call of [c.invoker.Invoke] is an
    [Invoke] event of the computation. *)
Record Client : Type := mkClient {
  account : string;
  user : string;
  rules : option (gmap string bool);
}.

(** *** Struct encodings, fields in declaration order under their tags *)
Global Instance payload_Marshaler : Marshaler payload.t := fun p =>
  h ← to_value (payload.Headers p);
  q ← to_value (payload.QueryStringParameters p);
  Some (Object [("headers", h); ("path", Str (payload.Path p));
                ("httpMethod", Str (payload.HttpMethod p));
                ("queryStringParameters", q); ("body", Str (payload.Body p))]).

Global Instance policy_Marshaler : Marshaler policy.t := fun p =>
  r ← to_value (policy.Rules p); Some (Object [("rules", r)]).

Global Instance Body_Marshaler `{GoAny} : Marshaler Body.t := fun b =>
  v ← to_value (Body.Variables b);
  Some (Object [("query", Str (Body.Query b)); ("variables", v)]).

(** *** Struct decodings *)
Global Instance policy_Zero : Zero policy.t := policy.mk None.
Global Instance policy_Unmarshaler : Unmarshaler policy.t :=
  decode_struct (fun p k v =>
    if equalFold "rules" k
    then rbind (from_value v (policy.Rules p)) (fun r => Ok (policy.mk r))
    else Ok p).

Global Instance responsePayload_Zero : Zero responsePayload.t :=
  responsePayload.mk "" 0 None.
Global Instance responsePayload_Unmarshaler : Unmarshaler responsePayload.t :=
  decode_struct (fun p k v =>
    if equalFold "body" k then
      rbind (from_value v (responsePayload.Body p)) (fun b =>
        Ok (responsePayload.mk b (responsePayload.StatusCode p) (responsePayload.Headers p)))
    else if equalFold "statusCode" k then
      rbind (from_value v (responsePayload.StatusCode p)) (fun n =>
        Ok (responsePayload.mk (responsePayload.Body p) n (responsePayload.Headers p)))
    else if equalFold "headers" k then
      rbind (from_value v (responsePayload.Headers p)) (fun h =>
        Ok (responsePayload.mk (responsePayload.Body p) (responsePayload.StatusCode p) h))
    else Ok p).

Global Instance errorItem_Zero : Zero errorItem.t := errorItem.mk "".
Global Instance errorItem_Unmarshaler : Unmarshaler errorItem.t :=
  decode_struct (fun e k v =>
    if equalFold "message" k
    then rbind (from_value v (errorItem.Message e)) (fun m => Ok (errorItem.mk m))
    else Ok e).

Global Instance responseBody_Zero `{GoAny} : Zero responseBody.t :=
  responseBody.mk None [].
Global Instance responseBody_Unmarshaler `{GoAny} : Unmarshaler responseBody.t :=
  decode_struct (fun b k v =>
    if equalFold "data" k then
      rbind (from_value v (responseBody.Data b)) (fun d =>
        Ok (responseBody.mk d (responseBody.Errors b)))
    else if equalFold "errors" k then
      rbind (from_value v (responseBody.Errors b)) (fun es =>
        Ok (responseBody.mk (responseBody.Data b) es))
    else Ok b).

(** ** The package's functions *)

Definition toHeader (header : option (gmap string string)) : gmap string (list string) :=
  (fun v => [v]) <$> default ∅ header.

(** The bytes of a [Marshal] as a string; [nil] bytes, which [Marshal]
    returns with an error, convert to the empty string. *)
Definition bytes_of (r : result string) : string :=
  match r with Ok s => s | Err _ => "" end.

Definition buildHeaders (c : Client) : gmap string string :=
  let policy := bytes_of (Marshal (policy.mk (rules c))) in
  <["LifeOmic-Account" := account c]>
    (<["LifeOmic-User" := user c]>
       (<["content-type" := "application/json"]>
          (<["LifeOmic-Policy" := policy]> ∅))).

Definition buildGqlQuery `{GoAny} (c : Client) (path query : string)
    (variables : option (gmap string any)) : prog string :=
  let body := bytes_of (Marshal (Body.mk query variables)) in
  let payload :=
    {| payload.Headers := Some (buildHeaders c);
       payload.HttpMethod := "POST";
       payload.QueryStringParameters := Some ∅;
       payload.Path := path;
       payload.Body := body |} in
  match Marshal payload with
  | Err _ => Fatal "Failed to marshall payload"
  | Ok bytes => Ret bytes
  end.

Definition pbind {A B : Type} (p : prog A) (f : A -> prog B) : prog B :=
  (fix go (p : prog A) : prog B :=
     match p with
     | Ret a => f a
     | Panic msg => Panic msg
     | Fatal msg => Fatal msg
     | Invoke ctx input k => Invoke ctx input (fun r => go (k r))
     end) p.

(** The translation of a gateway answer into the result of [Gql]: the tail
    of [Gql] after the call of [Invoke]. *)
Definition toData `{GoAny} (r : result InvokeOutput.t)
  : prog (result (option (gmap string any))) :=
  match r with
  | Err err => Ret (Err err)
  | Ok resp =>
      match Unmarshal (InvokeOutput.Payload resp) (zero : responsePayload.t) with
      | Err err => Ret (Err err)
      | Ok payload =>
          match Unmarshal (responsePayload.Body payload) (zero : responseBody.t) with
          | Err err => Ret (Err err)
          | Ok body =>
              match responseBody.Errors body with
              | e :: _ => Ret (Err (errorString (errorItem.Message e)))
              | [] => Ret (Ok (responseBody.Data body))
              end
          end
      end
  end.

Definition Gql `{GoAny} (c : Client) (uri query : string)
    (variables : option (gmap string any)) : prog (result (option (gmap string any))) :=
  match parseUri uri with
  | Err err => Ret (Err err)
  | Ok (functionName, path) =>
      pbind (buildGqlQuery c path query variables) (fun bytes =>
      Invoke Background (InvokeInput.mk functionName bytes) toData)
  end.

(** The loop of [Do] over the request's headers, in the order [entries];
    [None] is the panic of [v[0]] on an empty [v]. *)
Fixpoint copyHeaders (entries : list (string * list string))
    (headers : gmap string string) : option (gmap string string) :=
  match entries with
  | [] => Some headers
  | (k, v) :: rest =>
      match headers !! k with
      | Some _ => copyHeaders rest headers
      | None =>
          match v with
          | [] => None
          | v0 :: _ => copyHeaders rest (<[k := v0]> headers)
          end
      end
  end.

Definition index_out_of_range : string := "index out of range [0] with length 0".
Definition nil_dereference : string := "invalid memory address or nil pointer dereference".

(** The translation of a gateway answer into an HTTP response, shared by
    both versions of [Do]. *)
Definition toResponse (r : result InvokeOutput.t) : prog (result Response.t) :=
  match r with
  | Err err => Ret (Err err)
  | Ok lambdaResponse =>
      match Unmarshal (InvokeOutput.Payload lambdaResponse) (zero : responsePayload.t) with
      | Err err => Ret (Err err)
      | Ok respPayload =>
          Ret (Ok (Response.mk (responsePayload.Body respPayload)
                     (responsePayload.StatusCode respPayload)
                     (toHeader (responsePayload.Headers respPayload))))
      end
  end.

(** [Client.Do] of client.go. *)
Definition Do (c : Client) (req : Request.t) : prog (result Response.t) :=
  match parseUri (Request.URL req) with
  | Err err => Ret (Err err)
  | Ok (functionName, path) =>
      match copyHeaders (map_to_list (Request.Header req)) (buildHeaders c) with
      | None => Panic index_out_of_range
      | Some headers =>
          match ReadAll (Request.Body req) with
          | None => Panic nil_dereference
          | Some (body, _) =>
              let data :=
                bytes_of (Marshal {| payload.Headers := Some headers;
                                     payload.HttpMethod := Request.Method req;
                                     payload.QueryStringParameters := Some ∅;
                                     payload.Path := path;
                                     payload.Body := body |}) in
              Invoke (Request.Context req) (InvokeInput.mk functionName data) toResponse
          end
      end
  end.

(** [LambdaClient.Do] of the sibling file: the same, with the errors of
    [ReadAll] and [Marshal] checked. *)
Module LambdaClient.
Definition Do (c : Client) (req : Request.t) : prog (result Response.t) :=
  match parseUri (Request.URL req) with
  | Err err => Ret (Err err)
  | Ok (functionName, path) =>
      match copyHeaders (map_to_list (Request.Header req)) (buildHeaders c) with
      | None => Panic index_out_of_range
      | Some headers =>
          match ReadAll (Request.Body req) with
          | None => Panic nil_dereference
          | Some (_, Some err) => Ret (Err err)
          | Some (body, None) =>
              match Marshal {| payload.Headers := Some headers;
                               payload.HttpMethod := Request.Method req;
                               payload.QueryStringParameters := Some ∅;
                               payload.Path := path;
                               payload.Body := body |} with
              | Err err => Ret (Err err)
              | Ok data =>
                  Invoke (Request.Context req) (InvokeInput.mk functionName data) toResponse
              end
          end
      end
  end.
End LambdaClient.

(** [LambdaClient.AppStore] and [LambdaClient.Marketplace] of the sibling
    file.  The types [AppStoreClient] and [MarketplaceClient] are declared
    elsewhere in the package; the two fields are those the struct literals
    set: the client, and the routing string of the service's GraphQL
    endpoint. *)
Module AppStoreClient.
Record t : Type := mk { client : Client; graphqlUrl : string }.
End AppStoreClient.

Module MarketplaceClient.
Record t : Type := mk { client : Client; graphqlUrl : string }.
End MarketplaceClient.

Definition AppStore (c : Client) : AppStoreClient.t :=
  {| AppStoreClient.client := c;
     AppStoreClient.graphqlUrl := "app-store-service:deployed/graphql" |}.

Definition Marketplace (c : Client) : MarketplaceClient.t :=
  {| MarketplaceClient.client := c;
     MarketplaceClient.graphqlUrl :=
       "marketplace-service:deployed/v1/marketplace/authenticated/graphql" |}.

(** ** The envelope as a JSON document

    What the specification calls the request envelope: the object sent as
    the invocation payload, for given headers, path, method and body. *)
Definition headers_value (headers : gmap string string) : value :=
  Object ((fun kv => (kv.1, Str kv.2)) <$> sorted_entries headers).

Definition envelope (headers : gmap string string) (path method body : string) : value :=
  Object [("headers", headers_value headers); ("path", Str path);
          ("httpMethod", Str method); ("queryStringParameters", Object []);
          ("body", Str body)].

(** ** A sample universe of [interface{}] values and sample data *)
Inductive GoValue : Type :=
| Decoded (v : value)
| Chan.

Definition sampleAny : GoAny := {|
  any := GoValue;
  nilAny := Decoded Null;
  marshalAny := fun x => match x with Decoded v => Some v | Chan => None end;
  unmarshalAny := fun v => Some (Decoded v);
|}.

Definition sampleClient : Client :=
  mkClient "acct" "alice" (Some {[ "read" := true; "write" := false ]}).

Definition answer (body : string) (status : string) (headers : list (string * value))
  : gateway :=
  fun _ _ =>
    Ok (InvokeOutput.mk
          (encode (Object [("body", Str body); ("statusCode", Number status);
                           ("headers", Object headers)]))).

(** The gateway answer of the specification's [Do] example. *)
Definition sampleAnswer : InvokeOutput.t :=
  InvokeOutput.mk
    (encode (Object [("body", Str "hello"); ("statusCode", Number "404");
                     ("headers", Object [("X-Test", Str "v")])])).

(** A gateway answer wrapping a GraphQL body. *)
Definition gqlAnswer (body : value) : InvokeOutput.t :=
  InvokeOutput.mk
    (encode (Object [("body", Str (encode body)); ("statusCode", Number "200");
                     ("headers", Object [])])).

(** The GraphQL body of the specification's round-trip example. *)
Definition xBody : value :=
  Object [("data", Object [("x", Number "1")]); ("errors", Array [])].

(** The GraphQL body of the specification's error example. *)
Definition boomBody : value :=
  Object [("data", Object []);
          ("errors", Array [Object [("message", Str "boom")];
                            Object [("message", Str "second")]])].

Definition sampleRequest : Request.t :=
  {| Request.Method := "GET";
     Request.URL := "svc/items";
     Request.Header := {[ "X-Trace" := ["t1"; "t2"]; "content-type" := ["text/plain"] ]};
     Request.Body := Some (Reader.mk "hello" None);
     Request.ctx := Some (WithDeadline Background 30) |}.

(** A request whose body reader fails after yielding ["par"]. *)
Definition failingRequest : Request.t :=
  {| Request.Method := "POST";
     Request.URL := "svc/items";
     Request.Header := ∅;
     Request.Body := Some (Reader.mk "par" (Some (externalError "connection reset")));
     Request.ctx := None |}.

(** A request carrying a fixed header key with an empty value list. *)
Definition emptyFixedHeaderRequest : Request.t :=
  {| Request.Method := "GET";
     Request.URL := "svc/items";
     Request.Header := {[ "content-type" := [] ]};
     Request.Body := Some (Reader.mk "" None);
     Request.ctx := None |}.

(** The four fixed header keys. *)
Definition fixedKeys : gset string :=
  {[ "LifeOmic-Account"; "LifeOmic-User"; "content-type"; "LifeOmic-Policy" ]}.

(** A member of a GraphQL body that leaves [data] unset and [errors]
    empty: its key is not the [data] field's (the decoder matches field
    names with letter case folded), and when it is the [errors] field's its
    value is the empty array. *)
Definition leaves_no_data (member : string * value) : Prop :=
  equalFold "data" member.1 = false /\
  (equalFold "errors" member.1 = true -> member.2 = Array []).

Definition noDataBody : value := Object [("errors", Array [])].

Definition emptyHeaderRequest : Request.t :=
  {| Request.Method := "GET";
     Request.URL := "svc/items";
     Request.Header := {[ "X-Empty" := [] ]};
     Request.Body := Some (Reader.mk "" None);
     Request.ctx := None |}.

(** ** Notions used to state the properties of the JSON text *)

(** The byte sequences [utf8.chunks] yields as [Valid]. *)
Definition chunk_wf (c : utf8.chunk) : Prop :=
  match c with
  | utf8.Invalid _ => True
  | utf8.Valid (String b EmptyString) => utf8.is_ascii b = true
  | utf8.Valid (String b0 (String b1 EmptyString)) =>
      utf8.is_ascii b0 = false /\ utf8.seq2 b0 b1 = true
  | utf8.Valid (String b0 (String b1 (String b2 EmptyString))) =>
      utf8.is_ascii b0 = false /\ utf8.seq2 b0 b1 = false /\ utf8.seq3 b0 b1 b2 = true
  | utf8.Valid (String b0 (String b1 (String b2 (String b3 EmptyString)))) =>
      utf8.is_ascii b0 = false /\ utf8.seq2 b0 b1 = false /\
      utf8.seq3 b0 b1 b2 = false /\ utf8.seq4 b0 b1 b2 b3 = true
  | utf8.Valid _ => False
  end.

(** The value read back from an encoding: every string and key coerced to
    valid UTF-8. *)
Fixpoint coerce (v : value) : value :=
  match v with
  | Str s => Str (utf8.ToValidUTF8 s)
  | Array items => Array (map coerce items)
  | Object members =>
      Object (map (fun kv => (utf8.ToValidUTF8 (fst kv), coerce (snd kv))) members)
  | _ => v
  end.

(** Nesting depth of arrays and objects. *)
Fixpoint depth (v : value) : Z :=
  match v with
  | Array items => (1 + fold_right (fun x acc => Z.max (depth x) acc) 0 items)%Z
  | Object members =>
      (1 + fold_right (fun kv acc => Z.max (depth (snd kv)) acc) 0 members)%Z
  | _ => 0%Z
  end.

(** Every number of the value is a JSON number. *)
Fixpoint numbers_ok (v : value) : bool :=
  match v with
  | Number lit =>
      match scan_number lit with
      | Some (lit', EmptyString) => String.eqb lit' lit
      | _ => false
      end
  | Array items => forallb numbers_ok items
  | Object members => forallb (fun kv => numbers_ok (snd kv)) members
  | _ => true
  end.

(** The fuel [parse_value] needs on the encoding of a value. *)
Fixpoint size (v : value) : nat :=
  match v with
  | Array items => S (fold_right (fun x acc => S (size x + acc)) 0%nat items)
  | Object members => S (fold_right (fun kv acc => S (size (snd kv) + acc)) 0%nat members)
  | _ => 1
  end.

(** Text that may follow a value: nothing, or a separator or closing
    bracket. *)
Definition delimited (rest : string) : Prop :=
  match rest with
  | EmptyString => True
  | String c _ => c = ","%char \/ c = "]"%char \/ c = "}"%char
  end.

Definition roundtrips (v : value) : Prop :=
  numbers_ok v = true ->
  forall (fuel : nat) (d : Z) (rest : string),
    (size v <= fuel)%nat -> (d + depth v <= maxNestingDepth)%Z -> delimited rest ->
    parse_value fuel d (encode v ++ rest) = Some (coerce v, rest).

Definition esize (items : list value) : nat :=
  fold_right (fun x acc => S (size x + acc)) 0%nat items.

Definition edepth (items : list value) : Z :=
  fold_right (fun x acc => Z.max (depth x) acc) 0%Z items.

Definition msize (members : list (string * value)) : nat :=
  fold_right (fun kv acc => S (size (snd kv) + acc)) 0%nat members.

Definition mdepth (members : list (string * value)) : Z :=
  fold_right (fun kv acc => Z.max (depth (snd kv)) acc) 0%Z members.

Definition encode_member (kv : string * value) : string :=
  appendString (fst kv) ++ ":" ++ encode (snd kv).

Definition coerce_member (kv : string * value) : string * value :=
  (utf8.ToValidUTF8 (fst kv), coerce (snd kv)).

(** The JSON value of a rule set, as [Marshal] writes it. *)
Definition rules_value (rules : option (gmap string bool)) : value :=
  match rules with
  | None => Null
  | Some m => Object ((fun kv => (kv.1, Bool kv.2)) <$> sorted_entries m)
  end.

(** The JSON value [{"rules": rules}]. *)
Definition policy_value (rules : option (gmap string bool)) : value :=
  Object [("rules", rules_value rules)].

(** Every key of the rule set is valid UTF-8. *)
Definition valid_keys (rules : option (gmap string bool)) : Prop :=
  forall m k, rules = Some m -> is_Some (m !! k) -> utf8.ValidString k = true.

(** A client whose one rule has the key made of the byte 0xFF. *)
Definition badClient : Client :=
  mkClient "acct" "alice" (Some {[ String (byte_of 255) "" := true ]}).

(** ** Notions used to state the further properties *)

(** No header of the request outside the fixed keys has an empty list of
    values: the header loop of [Do] ends without a panic. *)
Definition no_empty_header (req : Request.t) : Prop :=
  forall key, key ∉ fixedKeys -> Request.Header req !! key <> Some [].

(** The error of [parseUri]. *)
Definition invalidURL : error := errorString "Invalid URL provided".

(** The payload [Do] sends for a request whose body reader yields [body]. *)
Definition DoInput (c : Client) (req : Request.t) (functionName path body : string)
  : InvokeInput.t :=
  InvokeInput.mk functionName
    (encode (envelope (buildHeaders c ∪ omap head (Request.Header req))
               path (Request.Method req) body)).

(** A request with no ['/'] in its URL, no body reader and a header with
    no value. *)
Definition unroutableRequest : Request.t :=
  {| Request.Method := "GET";
     Request.URL := "svc";
     Request.Header := {[ "X-Empty" := [] ]};
     Request.Body := None;
     Request.ctx := None |}.

(** A request made without a body, as [http.NewRequest] makes it for a
    [nil] body. *)
Definition bodylessRequest : Request.t :=
  {| Request.Method := "GET";
     Request.URL := "svc/items";
     Request.Header := {[ "X-Trace" := ["t1"] ]};
     Request.Body := None;
     Request.ctx := None |}.

(** The payload [Gql] sends. *)
Definition GqlInput `{GoAny} (c : Client) (functionName path query : string)
    (variables : option (gmap string any)) : InvokeInput.t :=
  InvokeInput.mk functionName
    (encode (envelope (buildHeaders c) path "POST"
               (bytes_of (Marshal (Body.mk query variables))))).

(** Every byte of the string is below 0x80. *)
Definition ascii_only (s : string) : bool :=
  forallb utf8.is_ascii (list_ascii_of_string s).

(** A text that can be put in front of any other without changing whether
    the whole is valid UTF-8. *)
Definition valid_prefix (s : string) : Prop :=
  forall rest, utf8.ValidString (s ++ rest) = utf8.ValidString rest.

(** A map of strings as the decoder reads it back from its encoding: keys
    and values coerced to valid UTF-8, in the order of the keys, a later
    entry replacing an earlier one that has become the same key. *)
Definition coerce_map (h : gmap string string) : gmap string string :=
  foldl (fun m kv => <[utf8.ToValidUTF8 kv.1 := utf8.ToValidUTF8 kv.2]> m) ∅
    (sorted_entries h).

(** Keys and values are valid UTF-8. *)
Definition valid_map (h : gmap string string) : Prop :=
  forall k v, h !! k = Some v -> utf8.ValidString k = true /\ utf8.ValidString v = true.

(** The JSON text of a [responsePayload], its members in the order of the
    struct's fields; [status] is the literal of the status code. *)
Definition responseText (body status : string) (headers : gmap string string) : string :=
  encode (Object [("body", Str body); ("statusCode", Number status);
                  ("headers", headers_value headers)]).

(** A GraphQL body with the member [data] and no errors. *)
Definition dataBody (data : value) : value :=
  Object [("data", data); ("errors", Array [])].

(** A member that names no field of [responsePayload]. *)
Definition names_no_field (member : string * value) : Prop :=
  equalFold "body" member.1 = false /\ equalFold "statusCode" member.1 = false /\
  equalFold "headers" member.1 = false.

(** The payload of a failed function, as the Lambda service reports it. *)
Definition functionError : InvokeOutput.t :=
  InvokeOutput.mk
    (encode (Object [("errorMessage", Str "boom"); ("errorType", Str "Error")])).

(** A client whose one rule has the key made of the byte 0xFE. *)
Definition otherBadClient : Client :=
  mkClient "acct" "alice" (Some {[ String (byte_of 254) "" := true ]}).

(** What a gateway that decodes the payload finds of the client: the
    payload is a JSON object whose first member is [headers]; decoded as a
    map of strings, it holds under the four fixed keys the account and the
    user (coerced to valid UTF-8), the content type, and the policy header
    as [buildHeaders] made it, which decodes to the client's rule set when
    the rule keys are valid UTF-8. *)
Definition reads_fixed_headers (c : Client) (input : InvokeInput.t) : Prop :=
  exists (hv : value) (rest : list (string * value)) (hs : gmap string string)
         (policy : string),
    parse (InvokeInput.Payload input) = Some (Object (("headers", hv) :: rest)) /\
    from_value hv (None : option (gmap string string)) = Ok (Some hs) /\
    hs !! "LifeOmic-Account" = Some (utf8.ToValidUTF8 (account c)) /\
    hs !! "LifeOmic-User" = Some (utf8.ToValidUTF8 (user c)) /\
    hs !! "content-type" = Some "application/json" /\
    hs !! "LifeOmic-Policy" = Some policy /\
    buildHeaders c !! "LifeOmic-Policy" = Some policy /\
    (valid_keys (rules c) -> Unmarshal policy (zero : policy.t) = Ok (policy.mk (rules c))).

(** A request whose body is the byte 0xFF. *)
Definition binaryRequest : Request.t :=
  {| Request.Method := "POST";
     Request.URL := "svc/items";
     Request.Header := ∅;
     Request.Body := Some (Reader.mk (String (byte_of 255) "") None);
     Request.ctx := None |}.

(** A GraphQL body with the member [data] and one error for each
    message. *)
Definition errorValue (message : string) : value := Object [("message", Str message)].

Definition errorsBody (data : value) (messages : list string) : value :=
  Object [("data", data); ("errors", Array (errorValue <$> messages))].

(** * Properties *)

Lemma IndexAny_ge (s chars : string) : (-1 <= IndexAny s chars)%Z.
Proof.
  induction s as [|c s IH]; simpl; [lia|].
  destruct (existsb _ _); [lia|].
  destruct (IndexAny s chars); lia.
Qed.

Lemma IndexAny_absent (s : string) :
  ~ has_slash s -> IndexAny s "/" = (-1)%Z.
Proof.
  unfold has_slash. induction s as [|c s IH]; simpl; intros H; [done|].
  destruct (Ascii.eqb_spec c "/") as [->|Hne]; simpl.
  - exfalso. apply H. by left.
  - rewrite IH; [done|]. intros Hin. apply H. by right.
Qed.

Lemma substring_0_app (a b : string) :
  substring 0 (String.length a) (a ++ b) = a.
Proof. induction a as [|c a IH]; simpl; [by destruct b|]. by rewrite IH. Qed.

Lemma substring_all (b : string) : substring 0 (String.length b) b = b.
Proof. induction b as [|c b IH]; simpl; [done|]. by rewrite IH. Qed.

Lemma substring_skip_app (a b : string) (n : nat) :
  substring (String.length a) n (a ++ b) = substring 0 n b.
Proof. induction a as [|c a IH]; simpl; [done|]. apply IH. Qed.

Lemma length_append (a b : string) :
  String.length (a ++ b) = String.length a + String.length b.
Proof. induction a as [|c a IH]; simpl; [done|]. by rewrite IH. Qed.

Lemma IndexAny_first (pre post : string) :
  ~ has_slash pre ->
  IndexAny (pre ++ String "/" post) "/" = Z.of_nat (String.length pre).
Proof.
  unfold has_slash. induction pre as [|c pre IH]; simpl; intros H; [done|].
  destruct (Ascii.eqb_spec c "/") as [->|Hne]; simpl.
  - exfalso. apply H. by left.
  - rewrite IH; [|intros Hin; apply H; by right].
    destruct (String.length pre); simpl; [done|]. f_equal. lia.
Qed.

Lemma split_at_first_slash (uri : string) :
  has_slash uri ->
  exists pre post, uri = pre ++ String "/" post /\ ~ has_slash pre.
Proof.
  unfold has_slash. induction uri as [|c uri IH]; simpl; [done|].
  destruct (Ascii.eqb_spec c "/") as [->|Hne]; intros H.
  - exists "", uri. split; [done|]. simpl. tauto.
  - destruct H as [H|H]; [congruence|].
    destruct (IH H) as (pre & post & -> & Hpre).
    exists (String c pre), post. split; [done|].
    simpl. intros [?|?]; [congruence|tauto].
Qed.

Lemma parseUri_split (pre post : string) :
  ~ has_slash pre ->
  parseUri (pre ++ String "/" post) = Ok (pre, String "/" post).
Proof.
  intros Hpre. unfold parseUri, slice, slice_from.
  rewrite (IndexAny_first _ _ Hpre).
  destruct (Z.eqb_spec (Z.of_nat (String.length pre)) (-1)) as [?|_]; [lia|].
  rewrite Z.sub_0_r, Nat2Z.id. simpl (Z.to_nat 0).
  rewrite substring_0_app, substring_skip_app, length_append.
  replace (String.length pre + String.length (String "/" post) - String.length pre)
    with (String.length (String "/" post)) by lia.
  by rewrite substring_all.
Qed.

Lemma parseUri_has_slash (uri : string) :
  has_slash uri ->
  exists pre post,
    uri = pre ++ String "/" post /\ ~ has_slash pre /\
    parseUri uri = Ok (pre, String "/" post).
Proof.
  intros H. destruct (split_at_first_slash uri H) as (pre & post & -> & Hpre).
  exists pre, post. split; [done|]. split; [done|]. by apply parseUri_split.
Qed.

Lemma parseUri_no_slash (uri : string) :
  ~ has_slash uri -> parseUri uri = Err (errorString "Invalid URL provided").
Proof. intros H. unfold parseUri. by rewrite (IndexAny_absent uri H). Qed.

(** C1: a routing string with a ['/'] splits at its first ['/'] into the
    identifier before it and the path from it (inclusive) to the end, a
    leading ['/'] giving the empty identifier; a string with no ['/'] is
    refused with the error "Invalid URL provided". *)
Theorem parseUri_spec (uri : string) :
  (has_slash uri ->
     exists pre post,
       uri = pre ++ String "/" post /\ ~ has_slash pre /\
       parseUri uri = Ok (pre, String "/" post)) /\
  (forall rest, parseUri (String "/" rest) = Ok ("", String "/" rest)) /\
  (~ has_slash uri -> parseUri uri = Err (errorString "Invalid URL provided")).
Proof.
  split; [apply parseUri_has_slash|]. split; [|apply parseUri_no_slash].
  intros rest. apply (parseUri_split "" rest). unfold has_slash. simpl. tauto.
Qed.

Lemma sample_has_slash : has_slash "svc/items".
Proof. unfold has_slash. simpl. auto 10. Qed.

Lemma parseUri_spec_witness :
  exists pre post,
    "svc/items" = pre ++ String "/" post /\ ~ has_slash pre /\
    parseUri "svc/items" = Ok (pre, String "/" post).
Proof. exact (proj1 (parseUri_spec "svc/items") sample_has_slash). Defined.

(** The specification's example: ["svc/items"] splits into ["svc"] and
    ["/items"]; a routing string with no ['/'] is refused. *)
Example parseUri_svc_items :
  parseUri "svc/items" = Ok ("svc", "/items") /\
  parseUri "svc" = Err (errorString "Invalid URL provided").
Proof. split; reflexivity. Qed.

(** ** Results of [Marshal] on the envelope *)

Lemma mapM_string_entries (l : list (string * string)) :
  mapM (fun kv : string * string => v ← to_value kv.2; Some (kv.1, v)) l
  = Some ((fun kv => (kv.1, json.Str kv.2)) <$> l).
Proof.
  induction l as [|[k v] l IH]; [done|].
  cbn. cbn in IH. by rewrite IH.
Qed.

Lemma to_value_string_map (m : gmap string string) :
  to_value (Some m) = Some (headers_value m).
Proof.
  unfold to_value, map_Marshaler, headers_value.
  rewrite mapM_string_entries. done.
Qed.

Lemma sorted_entries_empty {A : Type} : sorted_entries (∅ : gmap string A) = [].
Proof. unfold sorted_entries. by rewrite map_to_list_empty. Qed.

Lemma to_value_payload (headers : gmap string string) (path method body : string) :
  to_value {| payload.Headers := Some headers;
              payload.HttpMethod := method;
              payload.QueryStringParameters := Some ∅;
              payload.Path := path;
              payload.Body := body |}
  = Some (envelope headers path method body).
Proof.
  unfold to_value at 1, payload_Marshaler.
  cbn [payload.Headers payload.HttpMethod payload.QueryStringParameters
       payload.Path payload.Body].
  rewrite !to_value_string_map. cbn [mbind option_bind].
  unfold envelope, headers_value. by rewrite sorted_entries_empty.
Qed.

Lemma Marshal_payload (headers : gmap string string) (path method body : string) :
  Marshal {| payload.Headers := Some headers;
             payload.HttpMethod := method;
             payload.QueryStringParameters := Some ∅;
             payload.Path := path;
             payload.Body := body |}
  = Ok (json.encode (envelope headers path method body)).
Proof. unfold Marshal. by rewrite to_value_payload. Qed.

(** ** The header loop of [Do] *)

Lemma copyHeaders_Some (entries : list (string * list string))
    (fixed headers : gmap string string) :
  copyHeaders entries fixed = Some headers ->
  headers = fixed ∪ omap head (list_to_map entries : gmap string (list string)).
Proof.
  revert fixed. induction entries as [|[k v] rest IH]; intros fixed; simpl.
  - intros [= <-]. by rewrite omap_empty, (right_id_L ∅ (∪)).
  - destruct (fixed !! k) as [x|] eqn:Hk.
    + intros H. rewrite (IH _ H). apply map_eq. intros key.
      rewrite !lookup_union, !lookup_omap.
      destruct (decide (key = k)) as [->|Hne].
      * by rewrite Hk, !union_Some_l.
      * by rewrite lookup_insert_ne.
    + destruct v as [|v0 vs]; [done|]. intros H. rewrite (IH _ H).
      apply map_eq. intros key. rewrite !lookup_union, !lookup_omap.
      destruct (decide (key = k)) as [->|Hne].
      * rewrite !lookup_insert_eq, Hk. simpl.
        by rewrite union_Some_l, (left_id_L None (∪)).
      * by rewrite !lookup_insert_ne.
Qed.

Lemma copyHeaders_None (entries : list (string * list string))
    (fixed : gmap string string) :
  NoDup entries.*1 ->
  copyHeaders entries fixed = None <->
  exists key, fixed !! key = None /\ (key, []) ∈ entries.
Proof.
  revert fixed. induction entries as [|[k v] rest IH]; intros fixed Hnd; simpl.
  - split; [done|]. intros (key & _ & Hin). by apply elem_of_nil in Hin.
  - apply NoDup_cons in Hnd as [Hk Hnd]. simpl in Hk.
    destruct (fixed !! k) as [x|] eqn:Hfk.
    + rewrite (IH _ Hnd). split.
      * intros (key & ? & ?). exists key. split; [done|]. by right.
      * intros (key & Hf & Hin). exists key. split; [done|].
        apply elem_of_cons in Hin as [[= -> ->]|Hin]; [congruence|done].
    + destruct v as [|v0 vs].
      * split; [|done]. intros _. exists k. split; [done|]. by left.
      * rewrite (IH _ Hnd). split.
        -- intros (key & Hf & Hin). exists key.
           destruct (decide (key = k)) as [->|Hne].
           ++ by rewrite lookup_insert_eq in Hf.
           ++ rewrite lookup_insert_ne in Hf by done. split; [done|]. by right.
        -- intros (key & Hf & Hin). exists key.
           apply elem_of_cons in Hin as [[= -> ?]|Hin].
           split; [|done]. rewrite lookup_insert_ne; [done|].
           intros ->. apply Hk. apply list_elem_of_fmap. by exists (key, []).
Qed.

(** The loop over the request's header map. *)
Lemma copyHeaders_map (header : gmap string (list string))
    (fixed headers : gmap string string) :
  copyHeaders (map_to_list header) fixed = Some headers ->
  headers = fixed ∪ omap head header.
Proof. intros H. apply copyHeaders_Some in H. by rewrite list_to_map_to_list in H. Qed.

Lemma copyHeaders_map_None (header : gmap string (list string))
    (fixed : gmap string string) :
  copyHeaders (map_to_list header) fixed = None <->
  exists key, fixed !! key = None /\ header !! key = Some [].
Proof.
  rewrite copyHeaders_None by apply NoDup_fst_map_to_list.
  by setoid_rewrite elem_of_map_to_list.
Qed.

Lemma has_slash_dec (uri : string) : {has_slash uri} + {~ has_slash uri}.
Proof. apply in_dec, ascii_dec. Qed.

Lemma parseUri_Ok_iff (uri : string) :
  has_slash uri <-> exists functionName path, parseUri uri = Ok (functionName, path).
Proof.
  split.
  - intros H. destruct (parseUri_has_slash uri H) as (pre & post & _ & _ & ->). eauto.
  - intros (f & p & Hok). destruct (has_slash_dec uri) as [H|H]; [done|].
    rewrite (parseUri_no_slash uri H) in Hok. done.
Qed.

(** ** Where [Do] calls the gateway *)

(** [Do] reaches the gateway exactly when the routing string splits, the
    header loop ends and the request has a body reader; the call it makes
    is then this one. *)
Lemma Do_Invoke_inv (c : Client) (req : Request.t) ctx input k :
  Do c req = Invoke ctx input k ->
  exists functionName path body failure,
    parseUri (Request.URL req) = Ok (functionName, path) /\
    Request.Body req = Some (Reader.mk body failure) /\
    (forall key, buildHeaders c !! key = None -> Request.Header req !! key <> Some []) /\
    ctx = Request.Context req /\
    input = InvokeInput.mk functionName
              (encode (envelope (buildHeaders c ∪ omap head (Request.Header req))
                         path (Request.Method req) body)) /\
    k = toResponse.
Proof.
  unfold Do.
  destruct (parseUri (Request.URL req)) as [[functionName path]|e]; [|done].
  destruct (copyHeaders _ _) as [headers|] eqn:Hcopy; [|done].
  destruct (Request.Body req) as [[body failure]|]; [|done]. simpl.
  intros [= <- <- <-]. exists functionName, path, body, failure.
  rewrite Marshal_payload. simpl. rewrite (copyHeaders_map _ _ _ Hcopy).
  repeat split; try done.
  intros key Hfixed Hempty.
  assert (copyHeaders (map_to_list (Request.Header req)) (buildHeaders c) = None) as Hnone
    by (apply copyHeaders_map_None; eauto).
  congruence.
Qed.

Lemma buildHeaders_dom (c : Client) : dom (buildHeaders c) = fixedKeys.
Proof. unfold buildHeaders, fixedKeys. rewrite !dom_insert_L, dom_empty_L. set_solver. Qed.

Lemma buildHeaders_None (c : Client) (key : string) :
  buildHeaders c !! key = None <-> key ∉ fixedKeys.
Proof. by rewrite <- (buildHeaders_dom c), not_elem_of_dom. Qed.

Lemma mapM_bool_entries (l : list (string * bool)) :
  mapM (fun kv : string * bool => v ← to_value kv.2; Some (kv.1, v)) l
  = Some ((fun kv => (kv.1, Bool kv.2)) <$> l).
Proof.
  induction l as [|[k v] l IH]; [done|].
  cbn. cbn in IH. by rewrite IH.
Qed.

Lemma Marshal_policy (rules : option (gmap string bool)) :
  Marshal (policy.mk rules) = Ok (encode (policy_value rules)).
Proof.
  unfold Marshal, to_value at 1, policy_Marshaler. cbn [policy.Rules].
  destruct rules as [m|]; [|done].
  unfold to_value, map_Marshaler. by rewrite mapM_bool_entries.
Qed.

Lemma buildHeaders_policy (c : Client) :
  buildHeaders c !! "LifeOmic-Policy" = Some (encode (policy_value (rules c))).
Proof.
  unfold buildHeaders. rewrite Marshal_policy.
  do 3 (rewrite lookup_insert_ne by done). by rewrite lookup_insert_eq.
Qed.

(** C3: when [Do] calls the gateway, the envelope it sends carries the four
    fixed headers, each present with its fixed value (the account, the
    user, the content type, the policy text) whatever the request's header
    map holds under that key, and every other key of the request's header
    map with the first value of its list; nothing else. *)
Theorem Do_envelope_headers (c : Client) (req : Request.t) ctx input k :
  Do c req = Invoke ctx input k ->
  exists functionName path body headers,
    input = InvokeInput.mk functionName
              (encode (envelope headers path (Request.Method req) body)) /\
    headers !! "LifeOmic-Account" = Some (account c) /\
    headers !! "LifeOmic-User" = Some (user c) /\
    headers !! "content-type" = Some "application/json" /\
    headers !! "LifeOmic-Policy" = Some (encode (policy_value (rules c))) /\
    (forall key fixed, buildHeaders c !! key = Some fixed -> headers !! key = Some fixed) /\
    (forall key v vs, key ∉ fixedKeys -> Request.Header req !! key = Some (v :: vs) ->
       headers !! key = Some v) /\
    (forall key, key ∉ fixedKeys -> Request.Header req !! key = None ->
       headers !! key = None).
Proof.
  intros H. apply Do_Invoke_inv in H as (f & p & body & fl & _ & _ & _ & _ & -> & _).
  exists f, p, body, (buildHeaders c ∪ omap head (Request.Header req)).
  assert (forall key fixed, buildHeaders c !! key = Some fixed ->
            (buildHeaders c ∪ omap head (Request.Header req)) !! key = Some fixed) as Hfixed.
  { intros key fixed Hk. by rewrite lookup_union, Hk, union_Some_l. }
  split; [done|].
  split; [apply Hfixed; unfold buildHeaders; by rewrite lookup_insert_eq|].
  split; [apply Hfixed; unfold buildHeaders; rewrite lookup_insert_ne by done;
          by rewrite lookup_insert_eq|].
  split; [apply Hfixed; unfold buildHeaders; do 2 (rewrite lookup_insert_ne by done);
          by rewrite lookup_insert_eq|].
  split; [apply Hfixed, buildHeaders_policy|].
  split; [|split].
  - exact Hfixed.
  - intros key v vs Hk Hv. apply (buildHeaders_None c) in Hk.
    by rewrite lookup_union, Hk, lookup_omap, Hv.
  - intros key Hk Hv. apply (buildHeaders_None c) in Hk.
    by rewrite lookup_union, Hk, lookup_omap, Hv.
Qed.

Lemma Do_Invoke_intro (c : Client) (req : Request.t) functionName path headers body failure :
  parseUri (Request.URL req) = Ok (functionName, path) ->
  copyHeaders (map_to_list (Request.Header req)) (buildHeaders c) = Some headers ->
  Request.Body req = Some (Reader.mk body failure) ->
  Do c req = Invoke (Request.Context req)
               (InvokeInput.mk functionName
                  (encode (envelope headers path (Request.Method req) body)))
               toResponse.
Proof.
  intros Huri Hcopy Hbody. unfold Do. rewrite Huri, Hcopy, Hbody. simpl.
  by rewrite Marshal_payload.
Qed.

Lemma sample_Do :
  Do sampleClient sampleRequest
  = Invoke (WithDeadline Background 30)
      (InvokeInput.mk "svc"
         (encode (envelope (buildHeaders sampleClient ∪ omap head (Request.Header sampleRequest))
                    "/items" "GET" "hello")))
      toResponse.
Proof.
  apply (Do_Invoke_intro sampleClient sampleRequest "svc" "/items" _ "hello" None).
  - vm_compute; reflexivity.
  - vm_compute; reflexivity.
  - reflexivity.
Qed.

Lemma Do_envelope_headers_witness :
  exists functionName path body headers,
    InvokeInput.mk "svc"
      (encode (envelope (buildHeaders sampleClient ∪ omap head (Request.Header sampleRequest))
                 "/items" "GET" "hello"))
    = InvokeInput.mk functionName
        (encode (envelope headers path (Request.Method sampleRequest) body)) /\
    headers !! "LifeOmic-Account" = Some (account sampleClient) /\
    headers !! "LifeOmic-User" = Some (user sampleClient) /\
    headers !! "content-type" = Some "application/json" /\
    headers !! "LifeOmic-Policy" = Some (encode (policy_value (rules sampleClient))) /\
    (forall key fixed, buildHeaders sampleClient !! key = Some fixed ->
       headers !! key = Some fixed) /\
    (forall key v vs, key ∉ fixedKeys ->
       Request.Header sampleRequest !! key = Some (v :: vs) -> headers !! key = Some v) /\
    (forall key, key ∉ fixedKeys -> Request.Header sampleRequest !! key = None ->
       headers !! key = None).
Proof. exact (Do_envelope_headers sampleClient sampleRequest _ _ _ sample_Do). Defined.

(** C8: from a gateway answer that decodes as a [responsePayload], [Do]
    returns a response with that status code, that body, and each header of
    the payload as a one-element list. *)
Theorem Do_response (c : Client) (req : Request.t) ctx input k resp payload :
  Do c req = Invoke ctx input k ->
  Unmarshal (InvokeOutput.Payload resp) (zero : responsePayload.t) = Ok payload ->
  exists r,
    k (Ok resp) = Ret (Ok r) /\
    Response.StatusCode r = responsePayload.StatusCode payload /\
    Response.Body r = responsePayload.Body payload /\
    (forall key,
       Response.Header r !! key
       = (fun v => [v]) <$> (responsePayload.Headers payload ≫= (.!! key))).
Proof.
  intros H Hpayload.
  apply Do_Invoke_inv in H as (_ & _ & _ & _ & _ & _ & _ & _ & _ & ->).
  unfold toResponse. rewrite Hpayload. eexists. split; [done|]. simpl.
  repeat split. intros key. unfold toHeader. rewrite lookup_fmap.
  destruct (responsePayload.Headers payload) as [m|]; simpl; [done|].
  by rewrite lookup_empty.
Qed.

Lemma sampleAnswer_payload :
  Unmarshal (InvokeOutput.Payload sampleAnswer) (zero : responsePayload.t)
  = Ok (responsePayload.mk "hello" 404 (Some {[ "X-Test" := "v" ]})).
Proof. vm_compute; reflexivity. Qed.

Lemma Do_response_witness :
  exists r,
    toResponse (Ok sampleAnswer) = Ret (Ok r) /\
    Response.StatusCode r = 404%Z /\
    Response.Body r = "hello" /\
    (forall key,
       Response.Header r !! key
       = (fun v => [v]) <$> (Some ({[ "X-Test" := "v" ]} : gmap string string) ≫= (.!! key))).
Proof.
  exact (Do_response sampleClient sampleRequest _ _ _ sampleAnswer _ sample_Do
           sampleAnswer_payload).
Defined.

(** ** Where [Gql] calls the gateway *)

Lemma buildGqlQuery_Ret `{GoAny} (c : Client) (path query : string)
    (variables : option (gmap string any)) :
  buildGqlQuery c path query variables
  = Ret (encode (envelope (buildHeaders c) path "POST"
                   (bytes_of (Marshal (Body.mk query variables))))).
Proof. unfold buildGqlQuery. by rewrite Marshal_payload. Qed.

Lemma Gql_unfold `{GoAny} (c : Client) (uri query : string)
    (variables : option (gmap string any)) :
  Gql c uri query variables
  = match parseUri uri with
    | Err err => Ret (Err err)
    | Ok (functionName, path) =>
        Invoke Background
          (InvokeInput.mk functionName
             (encode (envelope (buildHeaders c) path "POST"
                        (bytes_of (Marshal (Body.mk query variables))))))
          toData
    end.
Proof.
  unfold Gql. destruct (parseUri uri) as [[f p]|e]; [|done].
  by rewrite buildGqlQuery_Ret.
Qed.

Lemma Gql_Invoke_inv `{GoAny} (c : Client) (uri query : string)
    (variables : option (gmap string any)) ctx input k :
  Gql c uri query variables = Invoke ctx input k ->
  exists functionName path,
    parseUri uri = Ok (functionName, path) /\
    ctx = Background /\
    input = InvokeInput.mk functionName
              (encode (envelope (buildHeaders c) path "POST"
                         (bytes_of (Marshal (Body.mk query variables))))) /\
    k = toData.
Proof.
  rewrite Gql_unfold. destruct (parseUri uri) as [[f p]|e]; [|done].
  intros [= <- <- <-]. by exists f, p.
Qed.

(** C4: once both layers of the answer decode, a non-empty [errors] makes
    [Gql] fail with the message of its first element, whatever follows it,
    and an empty [errors] makes it return [data] with no error. *)
Theorem Gql_first_error_wins `{GoAny} (c : Client) (uri query : string)
    (variables : option (gmap string any)) ctx input k resp payload body :
  Gql c uri query variables = Invoke ctx input k ->
  Unmarshal (InvokeOutput.Payload resp) (zero : responsePayload.t) = Ok payload ->
  Unmarshal (responsePayload.Body payload) (zero : responseBody.t) = Ok body ->
  (forall e rest, responseBody.Errors body = e :: rest ->
     k (Ok resp) = Ret (Err (errorString (errorItem.Message e)))) /\
  (responseBody.Errors body = [] -> k (Ok resp) = Ret (Ok (responseBody.Data body))).
Proof.
  intros HG Hp Hb. apply Gql_Invoke_inv in HG as (_ & _ & _ & _ & _ & ->).
  unfold toData. rewrite Hp, Hb. split.
  - by intros e rest ->.
  - by intros ->.
Qed.

Lemma sample_Gql (query : string) (variables : option (gmap string (@any sampleAny))) :
  Gql (H := sampleAny) sampleClient "fn/path" query variables
  = Invoke Background
      (InvokeInput.mk "fn"
         (encode (envelope (buildHeaders sampleClient) "/path" "POST"
                    (bytes_of (Marshal (Body.mk query variables))))))
      toData.
Proof. by rewrite Gql_unfold. Qed.

Lemma boom_payload :
  Unmarshal (InvokeOutput.Payload (gqlAnswer boomBody)) (zero : responsePayload.t)
  = Ok (responsePayload.mk (encode boomBody) 200 (Some ∅)).
Proof. vm_compute; reflexivity. Qed.

Lemma boom_body :
  Unmarshal (H := responseBody_Unmarshaler (H := sampleAny)) (encode boomBody) zero
  = Ok (responseBody.mk (Some ∅) [errorItem.mk "boom"; errorItem.mk "second"]).
Proof. vm_compute; reflexivity. Qed.

Lemma Gql_first_error_wins_witness :
  (forall e rest, [errorItem.mk "boom"; errorItem.mk "second"] = e :: rest ->
     toData (H := sampleAny) (Ok (gqlAnswer boomBody))
     = Ret (Err (errorString (errorItem.Message e)))) /\
  ([errorItem.mk "boom"; errorItem.mk "second"] = [] ->
     toData (H := sampleAny) (Ok (gqlAnswer boomBody)) = Ret (Ok (Some ∅))).
Proof.
  exact (Gql_first_error_wins (H := sampleAny) sampleClient "fn/path" "query{x}" (Some ∅)
           _ _ _ (gqlAnswer boomBody) _ _ (sample_Gql _ _) boom_payload boom_body).
Defined.

(** The specification's example: the answer with errors "boom" and
    "second" makes [Gql] fail with exactly "boom". *)
Example Gql_boom :
  toData (H := sampleAny) (Ok (gqlAnswer boomBody)) = Ret (Err (errorString "boom")).
Proof.
  unfold toData. rewrite boom_payload. cbn [responsePayload.Body].
  by rewrite boom_body.
Qed.

(** ** A body with no [data] *)

Lemma decode_no_data `{GoAny} (members : list (string * value)) :
  Forall leaves_no_data members ->
  from_value (Object members) (zero : responseBody.t) = Ok (responseBody.mk None []).
Proof.
  unfold from_value, responseBody_Unmarshaler, decode_struct.
  change (zero : responseBody.t) with (responseBody.mk None []).
  induction 1 as [|[key v] rest [Hdata Herr] _ IH]; [done|].
  cbn [foldl rbind fst snd responseBody.Data responseBody.Errors] in *.
  rewrite Hdata. destruct (equalFold "errors" key).
  - rewrite (Herr eq_refl). apply IH.
  - apply IH.
Qed.


Lemma noData_payload :
  Unmarshal (InvokeOutput.Payload (gqlAnswer noDataBody)) (zero : responsePayload.t)
  = Ok (responsePayload.mk (encode noDataBody) 200 (Some ∅)).
Proof. vm_compute; reflexivity. Qed.

Lemma noData_members : Forall leaves_no_data [("errors", Array [])].
Proof. repeat constructor. Qed.


(** ** The context of the call *)

(** C6, as stated, at [Gql]: whatever context the caller holds, here one
    with a deadline, the call made by [Gql] carries [Background], which has
    no deadline and is never cancelled. *)
Lemma Gql_context_not_callers :
  let callerCtx := WithDeadline Background 30 in
  exists input k,
    Gql (H := sampleAny) sampleClient "fn/path" "query{x}" None = Invoke Background input k /\
    Background <> callerCtx /\
    Deadline callerCtx = Some 30%Z /\
    Deadline Background = None /\
    cancellable Background = false.
Proof.
  intros callerCtx. eexists _, _. split; [apply sample_Gql|]. by repeat split.
Qed.

(** C6, amended: [Do] hands the gateway the request's context unchanged,
    so with the caller's deadline and cancellation and none added; [Gql],
    which takes no context, hands it [context.Background()], which has no
    deadline and cannot be cancelled. *)
Theorem Invoke_context `{GoAny} :
  (forall c req ctx input k,
     Do c req = Invoke ctx input k ->
     ctx = Request.Context req /\ Deadline ctx = Deadline (Request.Context req)) /\
  (forall c req ctx input k,
     LambdaClient.Do c req = Invoke ctx input k -> ctx = Request.Context req) /\
  (forall c uri query variables ctx input k,
     Gql c uri query variables = Invoke ctx input k ->
     ctx = Background /\ Deadline ctx = None /\ cancellable ctx = false).
Proof.
  split; [|split].
  - intros c req ctx input k HD.
    apply Do_Invoke_inv in HD as (_ & _ & _ & _ & _ & _ & _ & -> & _). done.
  - intros c req ctx input k. unfold LambdaClient.Do.
    destruct (parseUri _) as [[f p]|]; [|done].
    destruct (copyHeaders _ _); [|done].
    destruct (ReadAll _) as [[body [err|]]|]; [done| |done].
    destruct (Marshal _); [|done]. by intros [= <- _ _].
  - intros c uri query variables ctx input k HG.
    apply Gql_Invoke_inv in HG as (_ & _ & _ & -> & _). done.
Qed.

Lemma Invoke_context_witness :
  (WithDeadline Background 30 = Request.Context sampleRequest /\
   Deadline (WithDeadline Background 30) = Deadline (Request.Context sampleRequest)) /\
  (Background = Background /\ Deadline Background = None /\ cancellable Background = false).
Proof.
  destruct (Invoke_context (H := sampleAny)) as (HDo & _ & HGql). split.
  - exact (HDo sampleClient sampleRequest _ _ _ sample_Do).
  - exact (HGql sampleClient "fn/path" "query{x}" None _ _ _ (sample_Gql _ _)).
Defined.

(** ** The index panic of [Do] *)

(** C9, as stated, at a fixed key: a request whose header map sends
    [content-type] to the empty list is served, the key being skipped by
    the loop's guard before its list is indexed. *)
Lemma Do_empty_fixed_header_no_panic :
  Request.Header emptyFixedHeaderRequest !! "content-type" = Some [] /\
  Do sampleClient emptyFixedHeaderRequest
  = Invoke Background
      (InvokeInput.mk "svc"
         (encode (envelope (buildHeaders sampleClient) "/items" "GET" "")))
      toResponse.
Proof.
  split; [done|].
  apply (Do_Invoke_intro sampleClient emptyFixedHeaderRequest "svc" "/items" _ "" None).
  - vm_compute; reflexivity.
  - vm_compute; reflexivity.
  - reflexivity.
Qed.

Lemma index_nil_distinct : index_out_of_range <> nil_dereference.
Proof. discriminate. Qed.

(** C9, amended: [Do] panics on the index [v[0]] exactly when the routing
    string splits and the request carries a key that is none of the four
    fixed keys and whose value list is empty. *)
Theorem Do_index_panic_iff (c : Client) (req : Request.t) :
  Do c req = Panic index_out_of_range <->
  has_slash (Request.URL req) /\
  exists key, (key ∉ fixedKeys) /\ Request.Header req !! key = Some [].
Proof.
  unfold Do. split.
  - intros H. destruct (parseUri _) as [[f p]|] eqn:Huri; [|done]. split.
    + apply parseUri_Ok_iff. eauto.
    + destruct (copyHeaders _ _) eqn:Hcopy.
      * destruct (ReadAll _) as [[body fl]|]; [done|].
        injection H as H. by destruct index_nil_distinct.
      * apply copyHeaders_map_None in Hcopy as (key & Hk & Hv).
        exists key. by rewrite <- (buildHeaders_None c).
  - intros [Hslash (key & Hk & Hv)].
    apply parseUri_Ok_iff in Hslash as (f & p & ->).
    apply (buildHeaders_None c) in Hk.
    assert (copyHeaders (map_to_list (Request.Header req)) (buildHeaders c) = None) as ->
      by (apply copyHeaders_map_None; eauto).
    done.
Qed.

Lemma Do_index_panic_iff_witness :
  Do sampleClient emptyHeaderRequest = Panic index_out_of_range.
Proof.
  apply (Do_index_panic_iff sampleClient emptyHeaderRequest). split.
  - unfold has_slash. simpl. auto 10.
  - exists "X-Empty". split; [|done]. unfold fixedKeys.
    rewrite !elem_of_union, !elem_of_singleton. intros [[[?|?]|?]|?]; discriminate.
Defined.

(** ** Errors of [Do] before the call *)

Lemma Do_invalid_route (c : Client) (req : Request.t) :
  ~ has_slash (Request.URL req) ->
  Do c req = Ret (Err (errorString "Invalid URL provided")) /\
  LambdaClient.Do c req = Ret (Err (errorString "Invalid URL provided")).
Proof.
  intros H. unfold Do, LambdaClient.Do. by rewrite (parseUri_no_slash _ H).
Qed.

(** The sibling file's [Do] returns the error of the body reader and calls
    nothing. *)
Lemma LambdaClient_Do_read_error (c : Client) (req : Request.t) body err :
  has_slash (Request.URL req) ->
  (forall key, key ∉ fixedKeys -> Request.Header req !! key <> Some []) ->
  Request.Body req = Some (Reader.mk body (Some err)) ->
  LambdaClient.Do c req = Ret (Err err).
Proof.
  intros Hslash Hhdr Hbody. apply parseUri_Ok_iff in Hslash as (f & p & Huri).
  unfold LambdaClient.Do. rewrite Huri, Hbody.
  destruct (copyHeaders _ _) eqn:Hcopy; [done|].
  apply copyHeaders_map_None in Hcopy as (key & Hk & Hv).
  apply (buildHeaders_None c) in Hk. by destruct (Hhdr key Hk).
Qed.

(** C5 at [Client.Do] of client.go: the reader of [failingRequest] fails
    after ["par"]; [Do] drops that error, calls the gateway with the
    partial body, and returns what the answer translates to. *)
Theorem Do_discards_read_error :
  Request.Body failingRequest
  = Some (Reader.mk "par" (Some (externalError "connection reset"))) /\
  Do sampleClient failingRequest
  = Invoke Background
      (InvokeInput.mk "svc"
         (encode (envelope (buildHeaders sampleClient) "/items" "POST" "par")))
      toResponse /\
  toResponse (Ok sampleAnswer)
  = Ret (Ok (Response.mk "hello" 404 {[ "X-Test" := ["v"] ]})) /\
  LambdaClient.Do sampleClient failingRequest
  = Ret (Err (externalError "connection reset")).
Proof.
  split; [done|]. split; [|split].
  - apply (Do_Invoke_intro sampleClient failingRequest "svc" "/items" _ "par"
             (Some (externalError "connection reset"))); [| |done];
      vm_compute; reflexivity.
  - unfold toResponse. rewrite sampleAnswer_payload. do 2 f_equal.
  - apply (LambdaClient_Do_read_error _ _ "par"); [|done|done].
    unfold has_slash. simpl. auto 10.
Qed.

(** ** The envelope of [buildGqlQuery] *)

Lemma Marshal_Body `{GoAny} (query : string) (variables : option (gmap string any)) V :
  to_value variables = Some V ->
  Marshal (Body.mk query variables)
  = Ok (encode (Object [("query", Str query); ("variables", V)])).
Proof.
  intros HV. unfold Marshal, to_value at 1, Body_Marshaler.
  cbn [Body.Query Body.Variables]. by rewrite HV.
Qed.

(** C7, as stated, at a map holding a channel: [Marshal] refuses the
    body, [buildGqlQuery] drops that error, and the envelope's body is the
    empty string, which is no JSON text. *)
Lemma buildGqlQuery_unencodable_variables :
  let variables : option (gmap string (@any sampleAny)) := Some {[ "ch" := Chan ]} in
  Marshal (Body.mk "query{x}" variables) = Err UnsupportedTypeError /\
  buildGqlQuery sampleClient "/path" "query{x}" variables
  = Ret (encode (envelope (buildHeaders sampleClient) "/path" "POST" "")) /\
  parse "" = None.
Proof.
  intros variables.
  assert (Marshal (Body.mk "query{x}" variables) = Err UnsupportedTypeError) as HM
    by (vm_compute; reflexivity).
  split; [done|]. split; [|done]. by rewrite buildGqlQuery_Ret, HM.
Qed.

(** C7, amended: for variables that [Marshal] can encode, as the JSON value
    [V], [buildGqlQuery] returns the encoding of the envelope with method
    POST, an empty [queryStringParameters], the composed headers, the
    given path, and as body the encoding of [{query, variables}]. *)
Theorem buildGqlQuery_envelope `{GoAny} (c : Client) (path query : string)
    (variables : option (gmap string any)) (V : value) :
  to_value variables = Some V ->
  buildGqlQuery c path query variables
  = Ret (encode
           (Object [("headers", headers_value (buildHeaders c));
                    ("path", Str path);
                    ("httpMethod", Str "POST");
                    ("queryStringParameters", Object []);
                    ("body", Str (encode (Object [("query", Str query);
                                                  ("variables", V)])))])).
Proof. intros HV. by rewrite buildGqlQuery_Ret, (Marshal_Body _ _ _ HV). Qed.

Lemma buildGqlQuery_envelope_witness :
  buildGqlQuery (H := sampleAny) sampleClient "/path" "query{x}"
    (Some {[ "x" := Decoded (Number "1") ]})
  = Ret (encode
           (Object [("headers", headers_value (buildHeaders sampleClient));
                    ("path", Str "/path");
                    ("httpMethod", Str "POST");
                    ("queryStringParameters", Object []);
                    ("body", Str (encode (Object [("query", Str "query{x}");
                                                  ("variables",
                                                   Object [("x", Number "1")])])))])).
Proof.
  apply (buildGqlQuery_envelope (H := sampleAny)). vm_compute; reflexivity.
Defined.

(** ** The tails of [Do] and [Gql] return *)

Lemma toResponse_Ret (r : result InvokeOutput.t) : exists x, toResponse r = Ret x.
Proof.
  unfold toResponse. destruct r as [resp|e]; [|eauto].
  destruct (Unmarshal _ _); eauto.
Qed.

Lemma toData_Ret `{GoAny} (r : result InvokeOutput.t) : exists x, toData r = Ret x.
Proof.
  unfold toData. destruct r as [resp|e]; [|eauto].
  destruct (Unmarshal _ _) as [payload|]; [|eauto].
  destruct (Unmarshal _ _) as [body|]; [|eauto].
  destruct (responseBody.Errors body); eauto.
Qed.

(** ** The worked examples
    The specification's round-trip example: against a gateway answering
    the body [{"data":{"x":1},"errors":[]}], [Gql] makes one call, to
    function "fn" under [context.Background()], and returns the data. *)
Example Gql_round_trip :
  run (fun _ _ => Ok (gqlAnswer xBody))
    (Gql (H := sampleAny) sampleClient "fn/path" "query{x}" (Some ∅))
  = ([(Background,
       InvokeInput.mk "fn"
         (encode (envelope (buildHeaders sampleClient) "/path" "POST"
                    (encode (Object [("query", Str "query{x}");
                                     ("variables", Object [])])))))],
     Returned (Ok (Some {[ "x" := Decoded (Number "1") ]}))).
Proof. vm_compute. reflexivity. Qed.

(** The specification's [Do] example: the answer with status 404, body
    "hello" and header X-Test is returned as such a response. *)
Example Do_not_found :
  run (fun _ _ => Ok sampleAnswer) (Do sampleClient sampleRequest)
  = ([(WithDeadline Background 30,
       InvokeInput.mk "svc"
         (encode (envelope (buildHeaders sampleClient ∪ {[ "X-Trace" := "t1" ]})
                    "/items" "GET" "hello")))],
     Returned (Ok (Response.mk "hello" 404 {[ "X-Test" := ["v"] ]}))).
Proof. vm_compute. reflexivity. Qed.

(** ** The JSON text: what the encoder writes, the parser reads back *)

Lemma unquote_String (c : ascii) (s1 : string) :
  unquote (String c s1) =
        if Ascii.eqb c dquote then Some ("", s1)
        else if Ascii.eqb c backslash then
          match s1 with
          | EmptyString => None
          | String e s2 =>
              if Ascii.eqb e dquote || Ascii.eqb e backslash || Ascii.eqb e "/"
              then push e (unquote s2)
              else if Ascii.eqb e "b" then push (byte_of 8) (unquote s2)
              else if Ascii.eqb e "f" then push (byte_of 12) (unquote s2)
              else if Ascii.eqb e "n" then push (byte_of 10) (unquote s2)
              else if Ascii.eqb e "r" then push (byte_of 13) (unquote s2)
              else if Ascii.eqb e "t" then push (byte_of 9) (unquote s2)
              else if Ascii.eqb e "u" then
                match s2 with
                | String h1 (String h2 (String h3 (String h4 s6))) =>
                    match getu4 h1 h2 h3 h4 with
                    | None => None
                    | Some rr =>
                        if is_surrogate rr then
                          match peek_u4 s6 with
                          | Some rr1 =>
                              match decode_pair rr rr1, s6 with
                              | Some r, String _ (String _ (String _ (String _
                                          (String _ (String _ s12))))) =>
                                  push_all (utf8.EncodeRune r) (unquote s12)
                              | _, _ => push_all utf8.replacement (unquote s6)
                              end
                          | None => push_all utf8.replacement (unquote s6)
                          end
                        else push_all (utf8.EncodeRune rr) (unquote s6)
                    end
                | _ => None
                end
              else None
          end
        else if (byte_val c <? 0x20)%Z then None
        else if utf8.is_ascii c then push c (unquote s1)
        else
          match s1 with
          | String b1 s2 =>
              if utf8.seq2 c b1 then push c (push b1 (unquote s2))
              else
                match s2 with
                | String b2 s3 =>
                    if utf8.seq3 c b1 b2 then push c (push b1 (push b2 (unquote s3)))
                    else
                      match s3 with
                      | String b3 s4 =>
                          if utf8.seq4 c b1 b2 b3
                          then push c (push b1 (push b2 (push b3 (unquote s4))))
                          else push_all utf8.replacement (unquote s1)
                      | EmptyString => push_all utf8.replacement (unquote s1)
                      end
                | EmptyString => push_all utf8.replacement (unquote s1)
                end
          | EmptyString => push_all utf8.replacement (unquote s1)
          end.
Proof. reflexivity. Qed.

Lemma escape_byte_unquote (b : ascii) (X : string) :
  utf8.is_ascii b = true -> unquote (escape_byte b ++ X) = push b (unquote X).
Proof.
  destruct b as [[] [] [] [] [] [] [] []]; intros H; try discriminate H; reflexivity.
Qed.

Lemma non_ascii_raw (b : ascii) :
  utf8.is_ascii b = false ->
  Ascii.eqb b dquote = false /\ Ascii.eqb b backslash = false /\
  (byte_val b <? 0x20)%Z = false.
Proof.
  destruct b as [[] [] [] [] [] [] [] []]; intros H; try discriminate H; by repeat split.
Qed.

Lemma unquote_raw (c : ascii) (s1 : string) :
  utf8.is_ascii c = false ->
  unquote (String c s1) =
          match s1 with
          | String b1 s2 =>
              if utf8.seq2 c b1 then push c (push b1 (unquote s2))
              else
                match s2 with
                | String b2 s3 =>
                    if utf8.seq3 c b1 b2 then push c (push b1 (push b2 (unquote s3)))
                    else
                      match s3 with
                      | String b3 s4 =>
                          if utf8.seq4 c b1 b2 b3
                          then push c (push b1 (push b2 (push b3 (unquote s4))))
                          else push_all utf8.replacement (unquote s1)
                      | EmptyString => push_all utf8.replacement (unquote s1)
                      end
                | EmptyString => push_all utf8.replacement (unquote s1)
                end
          | EmptyString => push_all utf8.replacement (unquote s1)
          end.
Proof.
  intros H. rewrite unquote_String.
  destruct (non_ascii_raw c H) as (-> & -> & ->). by rewrite H.
Qed.

Lemma chunks_wf_le (n : nat) (s : string) :
  String.length s <= n -> Forall chunk_wf (utf8.chunks s).
Proof.
  revert s. induction n as [|n IH]; intros s Hn.
  - destruct s; [constructor|simpl in Hn; lia].
  - destruct s as [|b0 s1]; [constructor|]. simpl in Hn.
    assert (Forall chunk_wf (utf8.chunks s1)) as H1 by (apply IH; lia).
    cbn [utf8.chunks]. destruct (utf8.is_ascii b0) eqn:Ha; [by constructor|].
    destruct s1 as [|b1 s2]; [by constructor|]. simpl in Hn.
    destruct (utf8.seq2 b0 b1) eqn:H2.
    { constructor; [done|]. apply IH. lia. }
    destruct s2 as [|b2 s3]; [by constructor|]. simpl in Hn.
    destruct (utf8.seq3 b0 b1 b2) eqn:H3.
    { constructor; [done|]. apply IH. lia. }
    destruct s3 as [|b3 s4]; [by constructor|]. simpl in Hn.
    destruct (utf8.seq4 b0 b1 b2 b3) eqn:H4.
    { constructor; [done|]. apply IH. lia. }
    by constructor.
Qed.

Lemma chunks_wf (s : string) : Forall chunk_wf (utf8.chunks s).
Proof. by apply (chunks_wf_le (String.length s)). Qed.

Lemma append_String (x : ascii) (a b : string) : String x a ++ b = String x (a ++ b).
Proof. reflexivity. Qed.

Lemma append_assoc (a b c : string) : (a ++ b) ++ c = a ++ (b ++ c).
Proof. induction a as [|x a IH]; [done|]. by rewrite !append_String, IH. Qed.

Lemma push_all_unquote (p : string) (r : option (string * string)) s rest :
  r = Some (s, rest) -> push_all p r = Some (p ++ s, rest).
Proof. by intros ->. Qed.

Lemma unquote_escape_chunk (c : utf8.chunk) (X : string) :
  chunk_wf c ->
  unquote (escape_chunk c ++ X) = push_all (utf8.chunk_bytes c) (unquote X).
Proof.
  destruct c as [bytes|b]; [|intros _; reflexivity].
  destruct bytes as [|b0 [|b1 [|b2 [|b3 [|b4 bytes]]]]]; try done.
  - intros Ha. cbn [escape_chunk]. rewrite (escape_byte_unquote _ _ Ha).
    by destruct (unquote X) as [[? ?]|].
  - intros [Ha H2]. cbn [escape_chunk utf8.chunk_bytes].
    replace (String.eqb _ (utf8.EncodeRune 8232)) with false
      by (symmetry; apply String.eqb_neq; intros E; by apply (f_equal String.length) in E).
    replace (String.eqb _ (utf8.EncodeRune 8233)) with false
      by (symmetry; apply String.eqb_neq; intros E; by apply (f_equal String.length) in E).
    change (String b0 (String b1 "") ++ X) with (String b0 (String b1 X)).
    rewrite (unquote_raw _ _ Ha), H2.
    by destruct (unquote X) as [[? ?]|].
  - intros (Ha & H2 & H3). cbn [escape_chunk utf8.chunk_bytes].
    destruct (String.eqb_spec (String b0 (String b1 (String b2 ""))) (utf8.EncodeRune 8232))
      as [E|_].
    { rewrite E. reflexivity. }
    destruct (String.eqb_spec (String b0 (String b1 (String b2 ""))) (utf8.EncodeRune 8233))
      as [E|_].
    { rewrite E. reflexivity. }
    change (String b0 (String b1 (String b2 "")) ++ X)
      with (String b0 (String b1 (String b2 X))).
    rewrite (unquote_raw _ _ Ha), H2, H3.
    by destruct (unquote X) as [[? ?]|].
  - intros (Ha & H2 & H3 & H4). cbn [escape_chunk utf8.chunk_bytes].
    replace (String.eqb _ (utf8.EncodeRune 8232)) with false
      by (symmetry; apply String.eqb_neq; intros E; by apply (f_equal String.length) in E).
    replace (String.eqb _ (utf8.EncodeRune 8233)) with false
      by (symmetry; apply String.eqb_neq; intros E; by apply (f_equal String.length) in E).
    change (String b0 (String b1 (String b2 (String b3 ""))) ++ X)
      with (String b0 (String b1 (String b2 (String b3 X)))).
    rewrite (unquote_raw _ _ Ha), H2, H3, H4.
    by destruct (unquote X) as [[? ?]|].
Qed.

Lemma escape_append (cs : list utf8.chunk) (X : string) :
  foldr (fun c acc => escape_chunk c ++ acc) "" cs ++ X
  = foldr (fun c acc => escape_chunk c ++ acc) X cs.
Proof.
  induction cs as [|c cs IH]; [done|]. cbn [fold_right]. by rewrite append_assoc, IH.
Qed.

Lemma unquote_escape_chunks (cs : list utf8.chunk) (rest : string) :
  Forall chunk_wf cs ->
  unquote (foldr (fun c acc => escape_chunk c ++ acc) (String dquote rest) cs)
  = Some (foldr (fun c acc => utf8.chunk_bytes c ++ acc) "" cs, rest).
Proof.
  induction 1 as [|c cs Hc _ IH]; [done|].
  cbn [fold_right]. rewrite (unquote_escape_chunk _ _ Hc), IH. done.
Qed.

(** What the encoder writes between quotes reads back as the string
    coerced to valid UTF-8. *)
Lemma unquote_escape (s rest : string) :
  unquote (escape s ++ String dquote rest) = Some (utf8.ToValidUTF8 s, rest).
Proof.
  unfold escape, utf8.ToValidUTF8. rewrite escape_append.
  apply unquote_escape_chunks, chunks_wf.
Qed.

(** ** Induction on JSON values, through arrays and objects *)

Lemma value_ind' (P : value -> Prop) :
  P Null -> (forall b, P (Bool b)) -> (forall lit, P (Number lit)) ->
  (forall s, P (Str s)) ->
  (forall items, Forall P items -> P (Array items)) ->
  (forall members, Forall (fun kv => P kv.2) members -> P (Object members)) ->
  forall v, P v.
Proof.
  intros HN HB HNum HS HA HO. fix IH 1.
  intros [ |b|lit|s|items|members];
    [exact HN|exact (HB b)|exact (HNum lit)|exact (HS s)| | ].
  - apply HA. induction items as [|x items IHitems]; constructor; [apply IH|done].
  - apply HO. induction members as [|[k x] members IHm]; constructor; [apply IH|done].
Qed.

(** ** Numbers followed by more text *)

Lemma delimited_head (c : ascii) (rest : string) :
  delimited (String c rest) ->
  is_digit c = false /\ Ascii.eqb c "." = false /\ Ascii.eqb c "e" = false /\
  Ascii.eqb c "E" = false /\ is_space c = false.
Proof. intros [->|[->| ->]]; by repeat split. Qed.

Lemma span_digits_app (s rest ds r : string) :
  span_digits s = (ds, r) -> delimited rest ->
  span_digits (s ++ rest) = (ds, r ++ rest).
Proof.
  intros Hs Hrest. revert ds r Hs. induction s as [|c s IH]; intros ds r.
  - intros [= <- <-]. destruct rest as [|c rest]; [done|].
    destruct (delimited_head _ _ Hrest) as (Hd & _). simpl. by rewrite Hd.
  - rewrite append_String. cbn [span_digits]. destruct (is_digit c); [|by intros [= <- <-]].
    destruct (span_digits s) as [ds' r'] eqn:Hs. intros [= <- <-].
    by rewrite (IH _ _ eq_refl).
Qed.

Lemma scan_int_app (s rest i r : string) :
  scan_int s = Some (i, r) -> delimited rest -> scan_int (s ++ rest) = Some (i, r ++ rest).
Proof.
  intros Hs Hrest. destruct s as [|c s]; [done|]. rewrite append_String.
  unfold scan_int in *. destruct (Ascii.eqb c "0"); [by injection Hs as <- <-|].
  destruct (is_digit c); [|done].
  destruct (span_digits s) as [ds' r'] eqn:Hd. injection Hs as <- <-.
  by rewrite (span_digits_app _ _ _ _ Hd Hrest).
Qed.

Lemma scan_frac_app (s rest f r : string) :
  scan_frac s = Some (f, r) -> delimited rest ->
  scan_frac (s ++ rest) = Some (f, r ++ rest).
Proof.
  intros Hs Hrest. destruct s as [|c s].
  - injection Hs as <- <-. destruct rest as [|c rest]; [done|].
    destruct (delimited_head _ _ Hrest) as (_ & Hdot & _). simpl. by rewrite Hdot.
  - rewrite append_String. unfold scan_frac in *.
    destruct (Ascii.eqb c "."); [|by injection Hs as <- <-].
    destruct (span_digits s) as [ds' r'] eqn:Hd.
    rewrite (span_digits_app _ _ _ _ Hd Hrest).
    destruct ds'; [done|]. by injection Hs as <- <-.
Qed.

Lemma scan_exp_app (s rest e r : string) :
  scan_exp s = Some (e, r) -> delimited rest ->
  scan_exp (s ++ rest) = Some (e, r ++ rest).
Proof.
  intros Hs Hrest. destruct s as [|c s].
  - injection Hs as <- <-. destruct rest as [|c rest]; [done|].
    destruct (delimited_head _ _ Hrest) as (_ & _ & He & HE & _). simpl.
    by rewrite He, HE.
  - rewrite append_String. unfold scan_exp in *.
    destruct (Ascii.eqb c "e" || Ascii.eqb c "E"); [|by injection Hs as <- <-].
    destruct s as [|d s].
    + done.
    + rewrite append_String.
      destruct (Ascii.eqb d "+" || Ascii.eqb d "-").
      * destruct (span_digits s) as [ds' r'] eqn:Hd.
        rewrite (span_digits_app _ _ _ _ Hd Hrest).
        destruct ds'; [done|]. by injection Hs as <- <-.
      * destruct (span_digits (String d s)) as [ds' r'] eqn:Hd.
        rewrite <- append_String, (span_digits_app _ _ _ _ Hd Hrest).
        destruct ds'; [done|]. by injection Hs as <- <-.
Qed.

Lemma scan_sign_app (s0 rest sign lit r : string) :
  ('(i, s1) ← scan_int s0;
   '(f, s2) ← scan_frac s1;
   '(e, s3) ← scan_exp s2;
   Some (sign ++ i ++ f ++ e, s3)) = Some (lit, r) ->
  delimited rest ->
  ('(i, s1) ← scan_int (s0 ++ rest);
   '(f, s2) ← scan_frac s1;
   '(e, s3) ← scan_exp s2;
   Some (sign ++ i ++ f ++ e, s3)) = Some (lit, r ++ rest).
Proof.
  intros Hs Hrest.
  destruct (scan_int s0) as [[i s1]|] eqn:Hi; [|done]. simpl in Hs.
  destruct (scan_frac s1) as [[f s2]|] eqn:Hf; [|done]. simpl in Hs.
  destruct (scan_exp s2) as [[e s3]|] eqn:He; [|done]. simpl in Hs.
  injection Hs as <- <-.
  rewrite (scan_int_app _ _ _ _ Hi Hrest). simpl.
  rewrite (scan_frac_app _ _ _ _ Hf Hrest). simpl.
  by rewrite (scan_exp_app _ _ _ _ He Hrest).
Qed.

Lemma scan_number_app (s rest lit r : string) :
  scan_number s = Some (lit, r) -> delimited rest ->
  scan_number (s ++ rest) = Some (lit, r ++ rest).
Proof.
  intros Hs Hrest. destruct s as [|c s]; [done|].
  rewrite append_String. unfold scan_number in *.
  destruct (Ascii.eqb c "-").
  - by apply scan_sign_app.
  - rewrite <- append_String. by apply scan_sign_app.
Qed.

Lemma scan_number_ok (lit rest : string) :
  numbers_ok (Number lit) = true -> delimited rest ->
  scan_number (lit ++ rest) = Some (lit, rest).
Proof.
  cbn [numbers_ok]. intros Hok Hrest.
  destruct (scan_number lit) as [[lit' [|? ?]]|] eqn:Hs; try done.
  apply String.eqb_eq in Hok as ->.
  by rewrite (scan_number_app _ _ _ _ Hs Hrest).
Qed.

(** A JSON number starts with a minus sign or a digit. *)
Lemma number_head (lit : string) :
  numbers_ok (Number lit) = true ->
  exists c t, lit = String c t /\ (Ascii.eqb c "-" || is_digit c) = true.
Proof.
  cbn [numbers_ok]. intros Hok. destruct lit as [|c t]; [done|]. exists c, t.
  split; [done|]. unfold scan_number in Hok.
  destruct (Ascii.eqb c "-"); [done|]. simpl.
  unfold scan_int in Hok. destruct (Ascii.eqb_spec c "0") as [->|_]; [done|].
  by destruct (is_digit c).
Qed.

(** ** Parsing an encoding *)

Lemma parse_value_S (fuel : nat) (depth : Z) (s : string) :
  parse_value (S fuel) depth s =
        match skip_space s with
        | EmptyString => None
        | String c rest =>
            if Ascii.eqb c "n" then r ← strip "ull" rest; Some (Null, r)
            else if Ascii.eqb c "t" then r ← strip "rue" rest; Some (Bool true, r)
            else if Ascii.eqb c "f" then r ← strip "alse" rest; Some (Bool false, r)
            else if Ascii.eqb c dquote then '(str, r) ← unquote rest; Some (Str str, r)
            else if Ascii.eqb c "[" then
              if (depth <? maxNestingDepth)%Z then
                match skip_space rest with
                | String d r =>
                    if Ascii.eqb d "]" then Some (Array [], r)
                    else '(items, r') ← parse_elements fuel (depth + 1) rest;
                         Some (Array items, r')
                | EmptyString => None
                end
              else None
            else if Ascii.eqb c "{" then
              if (depth <? maxNestingDepth)%Z then
                match skip_space rest with
                | String d r =>
                    if Ascii.eqb d "}" then Some (Object [], r)
                    else '(members, r') ← parse_members fuel (depth + 1) rest;
                         Some (Object members, r')
                | EmptyString => None
                end
              else None
            else if Ascii.eqb c "-" || is_digit c then
              '(lit, r) ← scan_number (String c rest); Some (Number lit, r)
            else None
        end.
Proof. reflexivity. Qed.

Lemma parse_elements_S (fuel : nat) (depth : Z) (s : string) :
  parse_elements (S fuel) depth s =
        '(v, r) ← parse_value fuel depth s;
        match skip_space r with
        | String c r' =>
            if Ascii.eqb c "," then
              '(vs, r'') ← parse_elements fuel depth r'; Some (v :: vs, r'')
            else if Ascii.eqb c "]" then Some ([v], r')
            else None
        | EmptyString => None
        end.
Proof. reflexivity. Qed.

Lemma parse_members_S (fuel : nat) (depth : Z) (s : string) :
  parse_members (S fuel) depth s =
        match skip_space s with
        | String q r0 =>
            if Ascii.eqb q dquote then
              '(k, r1) ← unquote r0;
              match skip_space r1 with
              | String c r2 =>
                  if Ascii.eqb c ":" then
                    '(v, r3) ← parse_value fuel depth r2;
                    match skip_space r3 with
                    | String c' r4 =>
                        if Ascii.eqb c' "," then
                          '(ms, r5) ← parse_members fuel depth r4; Some ((k, v) :: ms, r5)
                        else if Ascii.eqb c' "}" then Some ([(k, v)], r4)
                        else None
                    | EmptyString => None
                    end
                  else None
              | EmptyString => None
              end
            else None
        | EmptyString => None
        end.
Proof. reflexivity. Qed.

Lemma append_nil_l (s : string) : "" ++ s = s.
Proof. reflexivity. Qed.

Lemma number_start (c : ascii) :
  (Ascii.eqb c "-" || is_digit c) = true ->
  is_space c = false /\ Ascii.eqb c "n" = false /\ Ascii.eqb c "t" = false /\
  Ascii.eqb c "f" = false /\ Ascii.eqb c dquote = false /\ Ascii.eqb c "[" = false /\
  Ascii.eqb c "{" = false /\ Ascii.eqb c "]" = false /\ Ascii.eqb c "}" = false.
Proof.
  destruct c as [[] [] [] [] [] [] [] []]; intros H; try discriminate H; by repeat split.
Qed.

(** The first character of an encoding starts a value. *)
Lemma encode_head (v : value) :
  numbers_ok v = true ->
  exists c t, encode v = String c t /\
    is_space c = false /\ Ascii.eqb c "]" = false /\ Ascii.eqb c "}" = false.
Proof.
  destruct v as [ |[]|lit|s|items|members]; intros Hok;
    try (eexists _, _; split; [reflexivity|by repeat split]).
  destruct (number_head lit Hok) as (c & t & -> & Hc).
  exists c, t. split; [done|]. destruct (number_start c Hc) as (? & _ & _ & _ & _ & _ & _ & ? & ?).
  done.
Qed.

Lemma parse_elements_encode (items : list value) :
  Forall roundtrips items -> forallb numbers_ok items = true -> items <> [] ->
  forall (fuel : nat) (d : Z) (rest : string),
    (esize items <= fuel)%nat -> (d + edepth items <= maxNestingDepth)%Z ->
    parse_elements fuel d (String.concat "," (map encode items) ++ String "]" rest)
    = Some (map coerce items, rest).
Proof.
  induction 1 as [|x items Hx _ IH]; [done|]. intros Hok _ fuel d rest Hfuel Hdepth.
  cbn [forallb] in Hok. apply andb_true_iff in Hok as [Hokx Hok].
  cbn [esize edepth fold_right] in Hfuel, Hdepth. fold (esize items) in Hfuel.
  fold (edepth items) in Hdepth.
  destruct fuel as [|fuel]; [lia|]. rewrite parse_elements_S.
  destruct items as [|y items].
  - cbn [map String.concat].
    rewrite (Hx Hokx fuel d (String "]" rest)) by (simpl; auto; lia).
    reflexivity.
  - change (String.concat "," (map encode (x :: y :: items)))
      with (encode x ++ "," ++ String.concat "," (map encode (y :: items))).
    rewrite !append_assoc. rewrite append_String.
    rewrite (Hx Hokx fuel d) by (simpl; auto; lia).
    cbn -[parse_elements String.concat map append]. rewrite append_nil_l.
    rewrite IH by (done || lia). reflexivity.
Qed.

Ltac norm_app :=
  repeat (rewrite append_assoc || rewrite append_String || rewrite append_nil_l).

Lemma appendString_app (k X : string) :
  appendString k ++ X = String dquote (escape k ++ String dquote X).
Proof. unfold appendString. by rewrite append_String, append_assoc. Qed.

Lemma parse_member_encode (k : string) (v : value) (fuel : nat) (d : Z) (R : string) :
  roundtrips v -> numbers_ok v = true -> (size v <= fuel)%nat ->
  (d + depth v <= maxNestingDepth)%Z -> delimited R ->
  parse_members (S fuel) d (encode_member (k, v) ++ R)
  = match skip_space R with
    | String c' r4 =>
        if Ascii.eqb c' "," then
          '(ms, r5) ← parse_members fuel d r4;
          Some ((utf8.ToValidUTF8 k, coerce v) :: ms, r5)
        else if Ascii.eqb c' "}" then Some ([(utf8.ToValidUTF8 k, coerce v)], r4)
        else None
    | EmptyString => None
    end.
Proof.
  intros Hv Hok Hfuel Hdepth HR. rewrite parse_members_S.
  unfold encode_member. cbn [fst snd]. rewrite !append_assoc, appendString_app.
  cbn [skip_space]. change (is_space dquote) with false. cbv iota.
  change (Ascii.eqb dquote dquote) with true. cbv iota.
  rewrite unquote_escape. cbn [mbind option_bind].
  rewrite append_String, append_nil_l. cbn [skip_space].
  change (is_space ":") with false. cbv iota.
  change (Ascii.eqb ":" ":") with true. cbv iota.
  by rewrite (Hv Hok fuel d R Hfuel Hdepth HR).
Qed.

Lemma parse_members_encode (members : list (string * value)) :
  Forall (fun kv => roundtrips kv.2) members ->
  forallb (fun kv => numbers_ok (snd kv)) members = true -> members <> [] ->
  forall (fuel : nat) (d : Z) (rest : string),
    (msize members <= fuel)%nat -> (d + mdepth members <= maxNestingDepth)%Z ->
    parse_members fuel d
      (String.concat "," (map encode_member members) ++ String "}" rest)
    = Some (map coerce_member members, rest).
Proof.
  induction 1 as [|[k x] members Hx _ IH]; [done|].
  intros Hok _ fuel d rest Hfuel Hdepth.
  cbn [forallb snd] in Hok, Hx. apply andb_true_iff in Hok as [Hokx Hok].
  cbn [msize mdepth fold_right snd] in Hfuel, Hdepth. fold (msize members) in Hfuel.
  fold (mdepth members) in Hdepth.
  destruct fuel as [|fuel]; [lia|].
  destruct members as [|y members].
  - cbn [map String.concat].
    rewrite parse_member_encode by (simpl; auto; lia). reflexivity.
  - change (String.concat "," (map encode_member ((k, x) :: y :: members)))
      with (encode_member (k, x) ++ "," ++ String.concat "," (map encode_member (y :: members))).
    rewrite append_assoc.
    rewrite parse_member_encode by (simpl; auto; lia).
    rewrite append_assoc, append_String, append_nil_l.
    cbn -[parse_members String.concat map append].
    rewrite IH by (done || lia). reflexivity.
Qed.

Lemma skip_space_head (c : ascii) (s : string) :
  is_space c = false -> skip_space (String c s) = String c s.
Proof. intros H. simpl. by rewrite H. Qed.

Lemma edepth_nonneg (items : list value) : (0 <= edepth items)%Z.
Proof. induction items; simpl; lia. Qed.

Lemma mdepth_nonneg (members : list (string * value)) : (0 <= mdepth members)%Z.
Proof. induction members; simpl; lia. Qed.

(** Parsing the encoding of a value, whatever follows it, gives the value
    back with its strings coerced to valid UTF-8. *)
Lemma parse_value_encode (v : value) : roundtrips v.
Proof.
  induction v as [ |b|lit|s|items IH|members IH] using value_ind';
    intros Hok fuel d rest Hfuel Hdepth Hrest;
    (destruct fuel as [|fuel]; [simpl in Hfuel; lia|]).
  - reflexivity.
  - by destruct b.
  - destruct (number_head lit Hok) as (c & t & -> & Hc).
    destruct (number_start c Hc) as (Hsp & Hn & Ht & Hf & Hq & Ha & Ho & _).
    rewrite parse_value_S. cbn [encode]. rewrite append_String.
    rewrite (skip_space_head _ _ Hsp), Hn, Ht, Hf, Hq, Ha, Ho, Hc.
    rewrite <- append_String, (scan_number_ok _ _ Hok Hrest). done.
  - rewrite parse_value_S. cbn [encode]. rewrite appendString_app.
    cbn [skip_space]. change (is_space dquote) with false. cbv iota.
    change (Ascii.eqb dquote "n") with false. change (Ascii.eqb dquote "t") with false.
    change (Ascii.eqb dquote "f") with false. change (Ascii.eqb dquote dquote) with true.
    cbv iota. by rewrite unquote_escape.
  - cbn [numbers_ok] in Hok. cbn [depth] in Hdepth. fold (edepth items) in Hdepth.
    cbn [size] in Hfuel. fold (esize items) in Hfuel.
    pose proof (edepth_nonneg items).
    rewrite parse_value_S. cbn [encode coerce].
    norm_app.
    cbn [skip_space]. change (is_space "[") with false. cbv iota.
    change (Ascii.eqb "[" "n") with false. change (Ascii.eqb "[" "t") with false.
    change (Ascii.eqb "[" "f") with false. change (Ascii.eqb "[" dquote) with false.
    change (Ascii.eqb "[" "[") with true. cbv iota.
    destruct (Z.ltb_spec d maxNestingDepth) as [_|?]; [|lia].
    destruct items as [|x items]; [reflexivity|].
    rewrite parse_elements_encode by (done || lia).
    apply Forall_cons_1 in IH as [Hx _]. cbn [forallb] in Hok.
    apply andb_true_iff in Hok as [Hokx _].
    destruct (encode_head x Hokx) as (c & t & Hc & Hsp & Hclose & _).
    change (String.concat "," (map encode (x :: items)))
      with (match map encode items with
            | [] => encode x
            | _ => encode x ++ "," ++ String.concat "," (map encode items)
            end).
    destruct (map encode items); rewrite Hc, !append_String, (skip_space_head _ _ Hsp), Hclose;
      reflexivity.
  - cbn [numbers_ok] in Hok. cbn [depth] in Hdepth. fold (mdepth members) in Hdepth.
    cbn [size] in Hfuel. fold (msize members) in Hfuel.
    pose proof (mdepth_nonneg members).
    rewrite parse_value_S. cbn [encode coerce]. fold encode_member. fold coerce_member.
    norm_app.
    cbn [skip_space]. change (is_space "{") with false. cbv iota.
    change (Ascii.eqb "{" "n") with false. change (Ascii.eqb "{" "t") with false.
    change (Ascii.eqb "{" "f") with false. change (Ascii.eqb "{" dquote) with false.
    change (Ascii.eqb "{" "[") with false. change (Ascii.eqb "{" "{") with true. cbv iota.
    destruct (Z.ltb_spec d maxNestingDepth) as [_|?]; [|lia].
    destruct members as [|[k x] members]; [reflexivity|].
    rewrite parse_members_encode by (done || lia).
    change (String.concat "," (map encode_member ((k, x) :: members)))
      with (match map encode_member members with
            | [] => encode_member (k, x)
            | _ => encode_member (k, x) ++ "," ++ String.concat "," (map encode_member members)
            end).
    destruct (map encode_member members);
      unfold encode_member at 1; cbn [fst snd];
      rewrite ?append_assoc, appendString_app; reflexivity.
Qed.

(** ** Fuel: an encoding is at least as long as the fuel it needs *)

Lemma esize_le_length (items : list value) :
  Forall (fun v => numbers_ok v = true -> (size v <= String.length (encode v))%nat) items ->
  forallb numbers_ok items = true ->
  (esize items <= S (String.length (String.concat "," (map encode items))))%nat.
Proof.
  induction 1 as [|x items Hx _ IH]; [simpl; lia|]. intros Hok.
  cbn [forallb] in Hok. apply andb_true_iff in Hok as [Hokx Hok].
  specialize (Hx Hokx). specialize (IH Hok).
  cbn [esize fold_right]. fold (esize items).
  destruct items as [|y items]; [simpl in *; lia|].
  change (String.concat "," (map encode (x :: y :: items)))
    with (encode x ++ "," ++ String.concat "," (map encode (y :: items))).
  rewrite !length_append. simpl String.length at 2. lia.
Qed.

Lemma msize_le_length (members : list (string * value)) :
  Forall (fun kv => numbers_ok kv.2 = true ->
                    (size kv.2 <= String.length (encode kv.2))%nat) members ->
  forallb (fun kv => numbers_ok (snd kv)) members = true ->
  (msize members <= S (String.length (String.concat "," (map encode_member members))))%nat.
Proof.
  induction 1 as [|[k x] members Hx _ IH]; [simpl; lia|]. intros Hok.
  cbn [forallb snd] in Hok, Hx. apply andb_true_iff in Hok as [Hokx Hok].
  specialize (Hx Hokx). specialize (IH Hok).
  cbn [msize fold_right snd]. fold (msize members).
  assert (size x <= String.length (encode_member (k, x)))%nat as Hm.
  { unfold encode_member. rewrite !length_append. cbn [snd]. lia. }
  destruct members as [|y members]; [simpl in *; lia|].
  change (String.concat "," (map encode_member ((k, x) :: y :: members)))
    with (encode_member (k, x) ++ "," ++ String.concat "," (map encode_member (y :: members))).
  rewrite !length_append. simpl String.length at 2. lia.
Qed.

Lemma size_le_length (v : value) :
  numbers_ok v = true -> (size v <= String.length (encode v))%nat.
Proof.
  induction v as [ |b|lit|s|items IH|members IH] using value_ind'; intros Hok.
  - simpl. lia.
  - destruct b; simpl; lia.
  - destruct (number_head lit Hok) as (c & t & -> & _). simpl. lia.
  - simpl. lia.
  - cbn [numbers_ok] in Hok. pose proof (esize_le_length items IH Hok).
    cbn [size encode]. fold (esize items). rewrite !length_append. simpl String.length.
    lia.
  - cbn [numbers_ok] in Hok. pose proof (msize_le_length members IH Hok).
    cbn [size encode]. fold (msize members). fold encode_member.
    rewrite !length_append. simpl String.length. lia.
Qed.

Lemma append_nil_r (s : string) : s ++ "" = s.
Proof. induction s as [|c s IH]; [done|]. by rewrite append_String, IH. Qed.

(** Parsing what the encoder wrote gives the value back, its strings
    coerced to valid UTF-8. *)
Theorem parse_encode (v : value) :
  numbers_ok v = true -> (depth v <= maxNestingDepth)%Z ->
  parse (encode v) = Some (coerce v).
Proof.
  intros Hok Hdepth. unfold parse.
  pose proof (parse_value_encode v Hok (S (String.length (encode v))) 0%Z "") as H.
  rewrite append_nil_r in H. rewrite H; [done| | |done].
  - pose proof (size_le_length v Hok). lia.
  - lia.
Qed.

(** ** Strings that are valid UTF-8 *)

Lemma ToValidUTF8_valid_le (n : nat) (s : string) :
  (String.length s <= n)%nat -> utf8.ValidString s = true -> utf8.ToValidUTF8 s = s.
Proof.
  unfold utf8.ValidString, utf8.ToValidUTF8.
  revert s. induction n as [|n IH]; intros s Hn.
  - destruct s; [done|simpl in Hn; lia].
  - destruct s as [|b0 s1]; [done|]. simpl in Hn. cbn [utf8.chunks].
    destruct (utf8.is_ascii b0).
    { cbn [forallb fold_right utf8.chunk_ok utf8.chunk_bytes]. intros H.
      rewrite IH by (done || lia). done. }
    destruct s1 as [|b1 s2]; [done|]. simpl in Hn.
    destruct (utf8.seq2 b0 b1).
    { cbn [forallb fold_right utf8.chunk_ok utf8.chunk_bytes]. intros H.
      rewrite IH by (done || lia). done. }
    destruct s2 as [|b2 s3]; [done|]. simpl in Hn.
    destruct (utf8.seq3 b0 b1 b2).
    { cbn [forallb fold_right utf8.chunk_ok utf8.chunk_bytes]. intros H.
      rewrite IH by (done || lia). done. }
    destruct s3 as [|b3 s4]; [done|]. simpl in Hn.
    destruct (utf8.seq4 b0 b1 b2 b3); [|done].
    cbn [forallb fold_right utf8.chunk_ok utf8.chunk_bytes]. intros H.
    rewrite IH by (done || lia). done.
Qed.

(** Coercion leaves a valid string as it is. *)
Lemma ToValidUTF8_valid (s : string) :
  utf8.ValidString s = true -> utf8.ToValidUTF8 s = s.
Proof. by apply (ToValidUTF8_valid_le (String.length s)). Qed.

(** ** The policy header *)

Lemma bool_object_ok (l : list (string * bool)) :
  numbers_ok (Object ((fun kv => (kv.1, Bool kv.2)) <$> l)) = true /\
  depth (Object ((fun kv => (kv.1, Bool kv.2)) <$> l)) = 1%Z.
Proof.
  induction l as [|[k b] l [IH1 IH2]]; [done|]. simpl in *. split; [done|]. unfold fmap in *. lia.
Qed.

Lemma policy_value_ok (rules : option (gmap string bool)) :
  numbers_ok (policy_value rules) = true /\ (depth (policy_value rules) <= maxNestingDepth)%Z.
Proof.
  destruct rules as [m|]; [|done]. unfold policy_value, rules_value.
  destruct (bool_object_ok (sorted_entries m)) as [H1 H2].
  cbn [numbers_ok depth forallb fold_right snd] in *. rewrite H1, H2. done.
Qed.

(** The policy header is JSON text for every rule set: it parses, to the
    policy's value with its keys coerced to valid UTF-8. *)
Lemma parse_policy (rules : option (gmap string bool)) :
  parse (encode (policy_value rules)) = Some (coerce (policy_value rules)).
Proof. destruct (policy_value_ok rules). by apply parse_encode. Qed.

Lemma decode_bool_entries (l : list (string * bool)) (m0 : gmap string bool) :
  decode_entries ((fun kv => (kv.1, Bool kv.2)) <$> l) m0
  = Ok (foldl (fun m kv => <[kv.1 := kv.2]> m) m0 l).
Proof.
  revert m0. induction l as [|[k b] l IH]; intros m0; [done|].
  cbn. apply IH.
Qed.

Lemma foldl_insert_list_to_map {A : Type} (l : list (string * A)) (m0 : gmap string A) :
  NoDup l.*1 ->
  foldl (fun m kv => <[kv.1 := kv.2]> m) m0 l = list_to_map l ∪ m0.
Proof.
  revert m0. induction l as [|[k x] l IH]; intros m0 Hnd.
  - cbn [foldl list_to_map foldr]. by rewrite (left_id_L ∅ (∪)).
  - apply NoDup_cons in Hnd as [Hk Hnd]. cbn [foldl list_to_map fst snd]. rewrite IH by done.
    rewrite list_to_map_cons, <- insert_union_l. cbn [fst snd].
    rewrite <- insert_union_r; [done|]. by apply not_elem_of_list_to_map_1.
Qed.

Lemma sorted_entries_perm {A : Type} (m : gmap string A) :
  sorted_entries m ≡ₚ map_to_list m.
Proof. apply merge_sort_Permutation. Qed.

Lemma foldl_insert_sorted_entries {A : Type} (m : gmap string A) :
  foldl (fun m' kv => <[kv.1 := kv.2]> m') ∅ (sorted_entries m) = m.
Proof.
  assert (NoDup (sorted_entries m).*1) as Hnd.
  { rewrite (sorted_entries_perm m). apply NoDup_fst_map_to_list. }
  rewrite foldl_insert_list_to_map by done. rewrite (right_id_L ∅ (∪)).
  rewrite (list_to_map_proper _ _ Hnd (sorted_entries_perm m)).
  apply list_to_map_to_list.
Qed.

Lemma coerce_valid_entries (l : list (string * bool)) :
  Forall (fun kv => utf8.ValidString kv.1 = true) l ->
  map coerce_member ((fun kv => (kv.1, Bool kv.2)) <$> l)
  = (fun kv => (kv.1, Bool kv.2)) <$> l.
Proof.
  induction 1 as [|[k b] l Hk _ IH]; [done|].
  cbn [fmap list_fmap map]. unfold coerce_member at 1. cbn [fst snd coerce] in *.
  rewrite (ToValidUTF8_valid _ Hk). f_equal. apply IH.
Qed.

(** With keys that are valid UTF-8, decoding the policy header gives the
    rule set back, [nil] for [nil] and empty for empty. *)
Lemma Unmarshal_policy (rules : option (gmap string bool)) :
  valid_keys rules ->
  Unmarshal (encode (policy_value rules)) (zero : policy.t) = Ok (policy.mk rules).
Proof.
  intros Hvalid. unfold Unmarshal. rewrite parse_policy.
  destruct rules as [m|]; [|reflexivity].
  unfold policy_value, rules_value. cbn [coerce map fst snd]. fold coerce_member.
  rewrite coerce_valid_entries.
  - change (utf8.ToValidUTF8 "rules") with "rules".
    unfold from_value at 1, policy_Unmarshaler, decode_struct.
    cbn [foldl fst snd rbind]. change (equalFold "rules" "rules") with true. cbv iota.
    unfold from_value, map_Unmarshaler. cbn [policy.Rules zero policy_Zero default].
    rewrite decode_bool_entries, foldl_insert_sorted_entries. done.
  - apply Forall_forall. intros [k b] Hin. cbn [fst].
    apply (Hvalid m k eq_refl). exists b.
    apply elem_of_map_to_list. by rewrite <- (sorted_entries_perm m).
Qed.

(** C2, as stated, at a key that is not valid UTF-8: the encoder writes
    the byte 0xFF as U+FFFD, so the policy header decodes to a rule set
    keyed by U+FFFD, which is not the client's. *)
Lemma policy_invalid_key_not_roundtrip :
  exists policy,
    buildHeaders badClient !! "LifeOmic-Policy" = Some policy /\
    Unmarshal policy (zero : policy.t)
    = Ok (policy.mk (Some {[ utf8.replacement := true ]})) /\
    Unmarshal policy (zero : policy.t) <> Ok (policy.mk (rules badClient)).
Proof.
  eexists. split; [apply buildHeaders_policy|].
  assert (Unmarshal (encode (policy_value (rules badClient))) (zero : policy.t)
          = Ok (policy.mk (Some {[ utf8.replacement := true ]}))) as H
    by (vm_compute; reflexivity).
  split; [exact H|]. rewrite H. intros E.
  apply (f_equal (fun r : result policy.t =>
                    match r with
                    | Ok p => policy.Rules p ≫= (.!! utf8.replacement)
                    | Err _ => None
                    end)) in E.
  vm_compute in E. discriminate E.
Qed.

(** C2, amended: [buildHeaders] returns exactly the four fixed keys, with
    the account, the user and "application/json"; the policy header is
    JSON text for every rule set, [nil] and empty included; and when the
    keys of the rule set are valid UTF-8, decoding it gives
    [{"rules": rules}] back. *)
Theorem buildHeaders_spec (c : Client) :
  dom (buildHeaders c) = fixedKeys /\
  buildHeaders c !! "LifeOmic-Account" = Some (account c) /\
  buildHeaders c !! "LifeOmic-User" = Some (user c) /\
  buildHeaders c !! "content-type" = Some "application/json" /\
  exists policy,
    buildHeaders c !! "LifeOmic-Policy" = Some policy /\
    parse policy = Some (coerce (policy_value (rules c))) /\
    (valid_keys (rules c) ->
       Unmarshal policy (zero : policy.t) = Ok (policy.mk (rules c))).
Proof.
  split; [apply buildHeaders_dom|].
  split; [unfold buildHeaders; by rewrite lookup_insert_eq|].
  split; [unfold buildHeaders; rewrite lookup_insert_ne by done;
          by rewrite lookup_insert_eq|].
  split; [unfold buildHeaders; do 2 (rewrite lookup_insert_ne by done);
          by rewrite lookup_insert_eq|].
  exists (encode (policy_value (rules c))).
  split; [apply buildHeaders_policy|]. split; [apply parse_policy|].
  apply Unmarshal_policy.
Qed.

Lemma sampleClient_valid_keys : valid_keys (rules sampleClient).
Proof.
  intros m k [= <-] Hk.
  destruct (decide (k = "read")) as [->|H1]; [done|].
  destruct (decide (k = "write")) as [->|H2]; [done|].
  rewrite lookup_insert_ne, lookup_singleton_ne in Hk by done.
  by destruct Hk.
Qed.

Lemma buildHeaders_spec_witness :
  exists policy,
    buildHeaders sampleClient !! "LifeOmic-Policy" = Some policy /\
    Unmarshal policy (zero : policy.t) = Ok (policy.mk (rules sampleClient)).
Proof.
  destruct (buildHeaders_spec sampleClient) as (_ & _ & _ & _ & policy & Hp & _ & Hu).
  exists policy. split; [exact Hp|]. exact (Hu sampleClient_valid_keys).
Defined.

(** * Further properties *)

(** ** The four ways [Do] goes *)

Lemma no_empty_header_dec (req : Request.t) :
  no_empty_header req \/
  exists key, (key ∉ fixedKeys) /\ Request.Header req !! key = Some [].
Proof.
  destruct (copyHeaders (map_to_list (Request.Header req)) (buildHeaders sampleClient))
    as [h|] eqn:Hc.
  - left. intros key Hk Hv.
    assert (copyHeaders (map_to_list (Request.Header req)) (buildHeaders sampleClient) = None)
      as Hn by (apply copyHeaders_map_None; exists key; by rewrite buildHeaders_None).
    congruence.
  - right. apply copyHeaders_map_None in Hc as (key & Hk & Hv).
    exists key. by rewrite <- (buildHeaders_None sampleClient).
Qed.

Lemma copyHeaders_no_empty (c : Client) (req : Request.t) :
  no_empty_header req ->
  copyHeaders (map_to_list (Request.Header req)) (buildHeaders c)
  = Some (buildHeaders c ∪ omap head (Request.Header req)).
Proof.
  intros Hne. destruct (copyHeaders _ _) as [h|] eqn:Hc.
  - by rewrite (copyHeaders_map _ _ _ Hc).
  - apply copyHeaders_map_None in Hc as (key & Hk & Hv).
    apply buildHeaders_None in Hk. by destruct (Hne key Hk).
Qed.

Lemma copyHeaders_empty (c : Client) (req : Request.t) key :
  key ∉ fixedKeys -> Request.Header req !! key = Some [] ->
  copyHeaders (map_to_list (Request.Header req)) (buildHeaders c) = None.
Proof.
  intros Hk Hv. apply copyHeaders_map_None. exists key. by rewrite buildHeaders_None.
Qed.

(** Up to the call of the gateway, [Do] does one of four things, by the
    routing string, the headers and the body reader. *)
Lemma Do_cases (c : Client) (req : Request.t) :
  (~ has_slash (Request.URL req) /\ Do c req = Ret (Err invalidURL)) \/
  (has_slash (Request.URL req) /\
   (exists key, (key ∉ fixedKeys) /\ Request.Header req !! key = Some []) /\
   Do c req = Panic index_out_of_range) \/
  (has_slash (Request.URL req) /\ no_empty_header req /\ Request.Body req = None /\
   Do c req = Panic nil_dereference) \/
  (has_slash (Request.URL req) /\ no_empty_header req /\
   exists functionName path body failure,
     parseUri (Request.URL req) = Ok (functionName, path) /\
     Request.Body req = Some (Reader.mk body failure) /\
     Do c req = Invoke (Request.Context req) (DoInput c req functionName path body)
                  toResponse).
Proof.
  destruct (has_slash_dec (Request.URL req)) as [Hs|Hs].
  2:{ left. split; [done|]. by apply Do_invalid_route. }
  right. destruct (no_empty_header_dec req) as [Hne|(key & Hk & Hv)].
  all: pose proof Hs as Hs'; apply parseUri_Ok_iff in Hs' as (f & p & Huri).
  2:{ left. split; [done|]. split; [eauto|].
      unfold Do. by rewrite Huri, (copyHeaders_empty c req key Hk Hv). }
  right.
  destruct (Request.Body req) as [[body fl]|] eqn:Hb.
  - right. split; [done|]. split; [done|]. exists f, p, body, fl.
    split; [done|]. split; [done|].
    apply (Do_Invoke_intro c req f p _ body fl); [done| |done].
    by apply copyHeaders_no_empty.
  - left. split; [done|]. split; [done|]. split; [done|].
    unfold Do. rewrite Huri, (copyHeaders_no_empty c req Hne), Hb. done.
Qed.

(** The sibling file's [Do] adds a fifth: the error of the body reader. *)
Lemma LambdaClient_Do_cases (c : Client) (req : Request.t) :
  (~ has_slash (Request.URL req) /\ LambdaClient.Do c req = Ret (Err invalidURL)) \/
  (has_slash (Request.URL req) /\
   (exists key, (key ∉ fixedKeys) /\ Request.Header req !! key = Some []) /\
   LambdaClient.Do c req = Panic index_out_of_range) \/
  (has_slash (Request.URL req) /\ no_empty_header req /\ Request.Body req = None /\
   LambdaClient.Do c req = Panic nil_dereference) \/
  (has_slash (Request.URL req) /\ no_empty_header req /\
   exists body err,
     Request.Body req = Some (Reader.mk body (Some err)) /\
     LambdaClient.Do c req = Ret (Err err)) \/
  (has_slash (Request.URL req) /\ no_empty_header req /\
   exists functionName path body,
     parseUri (Request.URL req) = Ok (functionName, path) /\
     Request.Body req = Some (Reader.mk body None) /\
     LambdaClient.Do c req
     = Invoke (Request.Context req) (DoInput c req functionName path body) toResponse).
Proof.
  destruct (has_slash_dec (Request.URL req)) as [Hs|Hs].
  2:{ left. split; [done|]. by apply Do_invalid_route. }
  right. destruct (no_empty_header_dec req) as [Hne|(key & Hk & Hv)].
  all: pose proof Hs as Hs'; apply parseUri_Ok_iff in Hs' as (f & p & Huri).
  2:{ left. split; [done|]. split; [eauto|].
      unfold LambdaClient.Do. by rewrite Huri, (copyHeaders_empty c req key Hk Hv). }
  right. unfold LambdaClient.Do. rewrite Huri, (copyHeaders_no_empty c req Hne).
  destruct (Request.Body req) as [[body [err|]]|] eqn:Hb; cbn [ReadAll Reader.content Reader.failure].
  - right. left. split; [done|]. split; [done|]. by exists body, err.
  - right. right. split; [done|]. split; [done|]. exists f, p, body.
    split; [done|]. split; [done|]. by rewrite Marshal_payload.
  - left. done.
Qed.

(** [Gql] does one of two. *)
Lemma Gql_cases `{GoAny} (c : Client) (uri query : string)
    (variables : option (gmap string any)) :
  (~ has_slash uri /\ Gql c uri query variables = Ret (Err invalidURL)) \/
  (exists functionName rest,
     uri = functionName ++ String "/" rest /\ ~ has_slash functionName /\
     Gql c uri query variables
     = Invoke Background
         (InvokeInput.mk functionName
            (encode (envelope (buildHeaders c) (String "/" rest) "POST"
                       (bytes_of (Marshal (Body.mk query variables))))))
         toData).
Proof.
  rewrite Gql_unfold. destruct (has_slash_dec uri) as [Hs|Hs].
  - right. destruct (parseUri_has_slash uri Hs) as (pre & post & -> & Hpre & ->).
    by exists pre, post.
  - left. by rewrite (parseUri_no_slash uri Hs).
Qed.

(** ** A routing string without ['/'] *)

(** X1: with no ['/'] in the routing string, [Gql] and both versions of
    [Do] return the error "Invalid URL provided" and call nothing, whatever
    the gateway; [Do] does so before it looks at the headers or the body, so
    that a request that would make it panic does not. *)
Theorem invalid_route_first `{GoAny} (gw : gateway) (c : Client) :
  (forall uri query variables,
     ~ has_slash uri ->
     run gw (Gql c uri query variables) = ([], Returned (Err invalidURL))) /\
  (forall req,
     ~ has_slash (Request.URL req) ->
     run gw (Do c req) = ([], Returned (Err invalidURL)) /\
     run gw (LambdaClient.Do c req) = ([], Returned (Err invalidURL))).
Proof.
  split.
  - intros uri query variables Hs. rewrite Gql_unfold.
    by rewrite (parseUri_no_slash uri Hs).
  - intros req Hs. destruct (Do_invalid_route c req Hs) as [-> ->]. done.
Qed.

Lemma invalid_route_first_witness :
  run (fun _ _ => Ok sampleAnswer) (Do sampleClient unroutableRequest)
  = ([], Returned (Err invalidURL)) /\
  Request.Body unroutableRequest = None /\
  Request.Header unroutableRequest !! "X-Empty" = Some [].
Proof.
  split; [|split; done].
  refine (proj1 (proj2 (invalid_route_first (H := sampleAny) (fun _ _ => Ok sampleAnswer)
                          sampleClient) unroutableRequest _)).
  unfold has_slash. simpl. intros [?|[?|[?|?]]]; try discriminate; done.
Defined.

(** ** A request without a body *)

(** X2: a request with no body reader ([req.Body] is [nil]), a routing
    string with a ['/'] and no header outside the fixed keys with an empty
    list of values makes [Do], in both versions, panic on a [nil] pointer
    in [ioutil.ReadAll]: whatever the gateway, no call is made. *)
Theorem Do_nil_body_panics (gw : gateway) (c : Client) (req : Request.t) :
  has_slash (Request.URL req) -> no_empty_header req -> Request.Body req = None ->
  run gw (Do c req) = ([], Panicked nil_dereference) /\
  run gw (LambdaClient.Do c req) = ([], Panicked nil_dereference).
Proof.
  intros Hs Hne Hb. split.
  - destruct (Do_cases c req)
      as [[Hn _]|[(_ & (k & Hk & Hv) & _)|[(_ & _ & _ & ->)|(_ & _ & E)]]];
      [done|by destruct (Hne k Hk)|done|].
    destruct E as (? & ? & ? & ? & _ & Hb' & _). congruence.
  - destruct (LambdaClient_Do_cases c req)
      as [[Hn _]|[(_ & (k & Hk & Hv) & _)|[(_ & _ & _ & ->)|[(_ & _ & E)|(_ & _ & E)]]]];
      [done|by destruct (Hne k Hk)|done| |].
    + destruct E as (? & ? & Hb' & _). congruence.
    + destruct E as (? & ? & ? & _ & Hb' & _). congruence.
Qed.

Lemma Do_nil_body_panics_witness :
  run (fun _ _ => Ok sampleAnswer) (Do sampleClient bodylessRequest)
  = ([], Panicked nil_dereference) /\
  run (fun _ _ => Ok sampleAnswer) (LambdaClient.Do sampleClient bodylessRequest)
  = ([], Panicked nil_dereference).
Proof.
  apply (Do_nil_body_panics (fun _ _ => Ok sampleAnswer) sampleClient bodylessRequest);
    [|intros key Hk Hv|done].
  - unfold has_slash. simpl. auto 10.
  - change (({[ "X-Trace" := ["t1"] ]} : gmap string (list string)) !! key = Some []) in Hv.
    destruct (decide (key = "X-Trace")) as [->|Hne].
    + by rewrite lookup_singleton_eq in Hv.
    + by rewrite lookup_singleton_ne in Hv.
Defined.

(** ** The two versions of [Do] *)

(** X3: the two versions of [Do] are the same computation on every request
    whose body reader does not fail: the check of [Marshal]'s error that
    the sibling file adds never fires. *)
Theorem Do_versions_agree (c : Client) (req : Request.t) :
  (forall rd, Request.Body req = Some rd -> Reader.failure rd = None) ->
  LambdaClient.Do c req = Do c req.
Proof.
  intros Hrd. unfold LambdaClient.Do, Do.
  destruct (parseUri _) as [[f p]|]; [|done].
  destruct (copyHeaders _ _) as [h|]; [|done].
  destruct (Request.Body req) as [[body fl]|] eqn:Hb; [|done].
  specialize (Hrd _ eq_refl). cbn in Hrd. subst fl.
  cbn [ReadAll Reader.content Reader.failure]. by rewrite Marshal_payload.
Qed.

Lemma Do_versions_agree_witness :
  LambdaClient.Do sampleClient sampleRequest = Do sampleClient sampleRequest.
Proof.
  apply (Do_versions_agree sampleClient sampleRequest).
  intros rd [= <-]. reflexivity.
Defined.

(** X4: what each version of [Do] returns without calling the gateway.
    [Client.Do] returns early only for a routing string without ['/'];
    [LambdaClient.Do] also for a failing body reader, with the reader's
    error, and for nothing else: not for an error of [Marshal]. *)
Theorem Do_early_returns (c : Client) (req : Request.t) (r : result Response.t) :
  (Do c req = Ret r <-> ~ has_slash (Request.URL req) /\ r = Err invalidURL) /\
  (LambdaClient.Do c req = Ret r <->
   (~ has_slash (Request.URL req) /\ r = Err invalidURL) \/
   (has_slash (Request.URL req) /\ no_empty_header req /\
    exists body err, Request.Body req = Some (Reader.mk body (Some err)) /\ r = Err err)).
Proof.
  split; split.
  - intros HD.
    destruct (Do_cases c req) as [[Hn E]|[(_ & _ & E)|[(_ & _ & _ & E)|(_ & _ & E)]]];
      [split; [done|congruence]|congruence|congruence|].
    destruct E as (? & ? & ? & ? & _ & _ & E). congruence.
  - intros [Hn ->]. by apply Do_invalid_route.
  - intros HD.
    destruct (LambdaClient_Do_cases c req)
      as [[Hn E]|[(_ & _ & E)|[(_ & _ & _ & E)|[(Hs & Hne & E)|(_ & _ & E)]]]];
      [left; split; [done|congruence]|congruence|congruence| |].
    + destruct E as (body & err & Hb & E). right. split; [done|]. split; [done|].
      exists body, err. split; [done|congruence].
    + destruct E as (? & ? & ? & _ & _ & E). congruence.
  - intros [[Hn ->]|(Hs & Hne & body & err & Hb & ->)].
    + by apply Do_invalid_route.
    + by apply (LambdaClient_Do_read_error c req body err).
Qed.

(** ** Where the errors come from *)

(** X5: [Do] returns an error in three cases and no other: the routing
    string has no ['/']; the gateway answers the call with an error, which is
    returned as it is; the gateway's answer does not decode as a
    [responsePayload], and the decoder's error is returned. *)
Theorem Do_error_iff (gw : gateway) (c : Client) (req : Request.t) (e : error) :
  (run gw (Do c req)).2 = Returned (Err e) <->
  (~ has_slash (Request.URL req) /\ e = invalidURL) \/
  (exists ctx input k,
     Do c req = Invoke ctx input k /\
     (gw ctx input = Err e \/
      exists resp,
        gw ctx input = Ok resp /\
        Unmarshal (InvokeOutput.Payload resp) (zero : responsePayload.t) = Err e)).
Proof.
  split.
  - intros HR.
    destruct (Do_cases c req) as [[Hn E]|[(_ & _ & E)|[(_ & _ & _ & E)|(_ & _ & E)]]].
    + rewrite E in HR. cbn in HR. left. split; [done|congruence].
    + rewrite E in HR. done.
    + rewrite E in HR. done.
    + destruct E as (f & p & body & fl & _ & _ & E). right.
      exists (Request.Context req), (DoInput c req f p body), toResponse.
      split; [done|]. rewrite E in HR. cbn [run] in HR.
      destruct (gw _ _) as [resp|e'] eqn:Hgw; cbn in HR.
      * right. exists resp. split; [done|].
        destruct (Unmarshal _ _) as [pl|e'']; cbn in HR; congruence.
      * left. congruence.
  - intros [[Hn ->]|(ctx & input & k & E & Hgw)].
    + by rewrite (proj1 (Do_invalid_route c req Hn)).
    + destruct (Do_Invoke_inv c req ctx input k E) as (_ & _ & _ & _ & _ & _ & _ & _ & _ & ->).
      rewrite E. cbn [run].
      destruct Hgw as [->|(resp & -> & HU)]; [done|]. cbn. by rewrite HU.
Qed.

(** X6: [Gql] returns an error in five cases and no other: the routing
    string has no ['/']; the gateway answers with an error; the answer does
    not decode as a [responsePayload]; its body does not decode as a
    [responseBody]; the body lists errors, and the message of the first one
    is the error. *)
Theorem Gql_error_iff `{GoAny} (gw : gateway) (c : Client) (uri query : string)
    (variables : option (gmap string any)) (e : error) :
  (run gw (Gql c uri query variables)).2 = Returned (Err e) <->
  (~ has_slash uri /\ e = invalidURL) \/
  (exists ctx input k,
     Gql c uri query variables = Invoke ctx input k /\
     (gw ctx input = Err e \/
      exists resp,
        gw ctx input = Ok resp /\
        (Unmarshal (InvokeOutput.Payload resp) (zero : responsePayload.t) = Err e \/
         exists payload,
           Unmarshal (InvokeOutput.Payload resp) (zero : responsePayload.t) = Ok payload /\
           (Unmarshal (responsePayload.Body payload) (zero : responseBody.t) = Err e \/
            exists body first rest,
              Unmarshal (responsePayload.Body payload) (zero : responseBody.t) = Ok body /\
              responseBody.Errors body = first :: rest /\
              e = errorString (errorItem.Message first))))).
Proof.
  split.
  - intros HR. destruct (Gql_cases c uri query variables) as [[Hn E]|(f & rest & -> & Hf & E)].
    + rewrite E in HR. cbn in HR. left. split; [done|congruence].
    + right. eexists _, _, _. split; [exact E|].
      rewrite E in HR. cbn [run] in HR. unfold toData in HR.
      destruct (gw _ _) as [resp|e'] eqn:Hgw; cbn in HR; [|left; congruence].
      right. exists resp. split; [done|].
      destruct (Unmarshal (InvokeOutput.Payload resp) _) as [pl|e'']; cbn in HR;
        [|left; congruence].
      right. exists pl. split; [done|].
      destruct (Unmarshal (responsePayload.Body pl) _) as [body|e'']; cbn in HR;
        [|left; congruence].
      right. destruct (responseBody.Errors body) as [|first rest'] eqn:HE; cbn in HR;
        [congruence|].
      exists body, first, rest'. split; [done|]. split; [done|]. congruence.
  - intros [[Hn ->]|(ctx & input & k & E & Hgw)].
    + rewrite Gql_unfold. by rewrite (parseUri_no_slash uri Hn).
    + destruct (Gql_Invoke_inv c uri query variables ctx input k E) as (_ & _ & _ & _ & _ & ->).
      rewrite E. cbn [run]. unfold toData.
      destruct Hgw as [->|(resp & -> & [HU|(pl & HU & HB)])]; [done|by rewrite HU|].
      rewrite HU. destruct HB as [->|(body & first & rest & -> & -> & ->)]; done.
Qed.

(** ** What never happens *)


(** X8: against any gateway, [Do], in both versions, and [Gql] make
    one call or none: what the call answers is never tried again. *)
Lemma one_call_at_most `{GoAny} (gw : gateway) :
  (forall c req, length (run gw (Do c req)).1 <= 1) /\
  (forall c req, length (run gw (LambdaClient.Do c req)).1 <= 1) /\
  (forall c uri query variables, length (run gw (Gql c uri query variables)).1 <= 1).
Proof.
  split; [|split].
  - intros c req. unfold Do.
    destruct (parseUri _) as [[f p]|]; [|simpl; lia].
    destruct (copyHeaders _ _); [|simpl; lia].
    destruct (ReadAll _) as [[body fl]|]; [|simpl; lia].
    cbn [run]. destruct (toResponse_Ret (gw (Request.Context req)
      (InvokeInput.mk f (bytes_of (Marshal (payload.mk (Some g) p (Request.Method req) (Some ∅) body)))))) as [x ->].
    simpl. lia.
  - intros c req. unfold LambdaClient.Do.
    destruct (parseUri _) as [[f p]|]; [|simpl; lia].
    destruct (copyHeaders _ _); [|simpl; lia].
    destruct (ReadAll _) as [[body [err|]]|]; [simpl; lia| |simpl; lia].
    destruct (Marshal _) as [data|]; [|simpl; lia].
    cbn [run]. destruct (toResponse_Ret (gw (Request.Context req) (InvokeInput.mk f data)))
      as [x ->].
    simpl. lia.
  - intros c uri query variables. rewrite Gql_unfold.
    destruct (parseUri _) as [[f p]|]; [|simpl; lia].
    cbn [run].
    destruct (toData_Ret (gw Background
      (InvokeInput.mk f (encode (envelope (buildHeaders c) p "POST"
                                   (bytes_of (Marshal (Body.mk query variables))))))))
      as [x ->].
    simpl. lia.
Qed.

(** ** [toHeader] and the header loop of [Do] *)

Lemma omap_head_toHeader (h : option (gmap string string)) :
  omap head (toHeader h) = default ∅ h.
Proof.
  unfold toHeader. apply map_eq. intros k.
  rewrite lookup_omap, lookup_fmap. by destruct (default ∅ h !! k).
Qed.

(** X9: [toHeader] gives every key of the map, and no other, a list of one
    value; a [nil] map gives the empty header.  So a header made by
    [toHeader] goes through the header loop of [Do] without a panic, and
    comes out as the map it was made from, the fixed keys first. *)
Theorem toHeader_copyHeaders (h : option (gmap string string)) (c : Client) :
  dom (toHeader h) = dom (default ∅ h) /\
  (forall key vs, toHeader h !! key = Some vs -> exists v, vs = [v] /\ default ∅ h !! key = Some v) /\
  copyHeaders (map_to_list (toHeader h)) (buildHeaders c)
  = Some (buildHeaders c ∪ default ∅ h).
Proof.
  split; [|split].
  - unfold toHeader. by rewrite dom_fmap_L.
  - intros key vs. unfold toHeader. rewrite lookup_fmap.
    destruct (default ∅ h !! key) as [v|]; [|done]. intros [= <-]. eauto.
  - destruct (copyHeaders _ _) as [hs|] eqn:Hc.
    + by rewrite (copyHeaders_map _ _ _ Hc), omap_head_toHeader.
    + apply copyHeaders_map_None in Hc as (key & _ & Hv).
      unfold toHeader in Hv. rewrite lookup_fmap in Hv.
      by destruct (default ∅ h !! key).
Qed.

(** ** The façades *)


(** ** What the encoder writes is valid UTF-8 *)

Lemma valid_prefix_nil : valid_prefix "".
Proof. intros rest. by rewrite append_nil_l. Qed.

Lemma valid_prefix_app (a b : string) :
  valid_prefix a -> valid_prefix b -> valid_prefix (a ++ b).
Proof. intros Ha Hb rest. by rewrite append_assoc, Ha, Hb. Qed.

Lemma valid_prefix_ascii (c : ascii) (s : string) :
  utf8.is_ascii c = true -> valid_prefix s -> valid_prefix (String c s).
Proof.
  intros Hc Hs rest. rewrite append_String. unfold utf8.ValidString.
  cbn [utf8.chunks]. rewrite Hc. cbn [forallb utf8.chunk_ok andb]. apply Hs.
Qed.

Lemma valid_prefix_ascii_only (s : string) : ascii_only s = true -> valid_prefix s.
Proof.
  unfold ascii_only. induction s as [|c s IH]; cbn [list_ascii_of_string forallb].
  - intros _. apply valid_prefix_nil.
  - intros [Hc Hs]%andb_true_iff. apply valid_prefix_ascii; auto.
Qed.

Lemma valid_prefix_chunk (bytes : string) :
  chunk_wf (utf8.Valid bytes) -> valid_prefix bytes.
Proof.
  destruct bytes as [|b0 [|b1 [|b2 [|b3 [|b4 t]]]]]; cbn [chunk_wf]; try done.
  - intros H0. by apply valid_prefix_ascii; [|apply valid_prefix_nil].
  - intros [H0 H2] rest. unfold utf8.ValidString. rewrite !append_String, append_nil_l.
    cbn [utf8.chunks]. by rewrite H0, H2.
  - intros (H0 & H2 & H3) rest. unfold utf8.ValidString.
    rewrite !append_String, append_nil_l. cbn [utf8.chunks]. by rewrite H0, H2, H3.
  - intros (H0 & H2 & H3 & H4) rest. unfold utf8.ValidString.
    rewrite !append_String, append_nil_l. cbn [utf8.chunks]. by rewrite H0, H2, H3, H4.
Qed.

Lemma hex_digit_ascii (n : Z) : utf8.is_ascii (hex_digit n) = true.
Proof.
  unfold hex_digit. generalize (Z.to_nat n). intros k.
  do 17 (destruct k as [|k]; [reflexivity|]). reflexivity.
Qed.

Lemma escape_byte_ascii (b : ascii) :
  utf8.is_ascii b = true -> ascii_only (escape_byte b) = true.
Proof.
  intros Hb. unfold escape_byte.
  destruct (htmlSafe b); [unfold ascii_only; cbn; by rewrite Hb|].
  destruct (_ || _); [unfold ascii_only; cbn; by rewrite Hb|].
  destruct (Ascii.eqb b (byte_of 10)); [done|].
  destruct (Ascii.eqb b (byte_of 13)); [done|].
  destruct (Ascii.eqb b (byte_of 9)); [done|].
  unfold ascii_only. cbn [list_ascii_of_string forallb].
  by rewrite !hex_digit_ascii.
Qed.

Lemma valid_prefix_escape_chunk (c : utf8.chunk) :
  chunk_wf c -> valid_prefix (escape_chunk c).
Proof.
  destruct c as [bytes|b]; [|intros _; by apply valid_prefix_ascii_only].
  intros Hwf. destruct bytes as [|b0 [|b1 t]].
  - done.
  - apply valid_prefix_ascii_only, escape_byte_ascii. exact Hwf.
  - unfold escape_chunk.
    destruct (String.eqb _ _); [by apply valid_prefix_ascii_only|].
    destruct (String.eqb _ _); [by apply valid_prefix_ascii_only|].
    by apply valid_prefix_chunk.
Qed.

Lemma valid_prefix_escape (s : string) : valid_prefix (escape s).
Proof.
  unfold escape. induction (chunks_wf s) as [|c cs Hc _ IH]; cbn [foldr].
  - apply valid_prefix_nil.
  - apply valid_prefix_app; [by apply valid_prefix_escape_chunk|exact IH].
Qed.

Lemma valid_prefix_appendString (s : string) : valid_prefix (appendString s).
Proof.
  unfold appendString. apply valid_prefix_ascii; [done|].
  apply valid_prefix_app; [apply valid_prefix_escape|by apply valid_prefix_ascii_only].
Qed.

Lemma ascii_only_app (a b : string) :
  ascii_only (a ++ b) = ascii_only a && ascii_only b.
Proof.
  unfold ascii_only. induction a as [|c a IH]; [done|].
  rewrite append_String. cbn [list_ascii_of_string forallb]. by rewrite IH, andb_assoc.
Qed.

Lemma ascii_only_String (c : ascii) (s : string) :
  ascii_only (String c s) = utf8.is_ascii c && ascii_only s.
Proof. reflexivity. Qed.

Lemma is_digit_ascii (c : ascii) : is_digit c = true -> utf8.is_ascii c = true.
Proof.
  unfold is_digit, in_range, utf8.is_ascii. intros [_ H]%andb_true_iff.
  apply Z.ltb_lt. apply Z.leb_le in H. lia.
Qed.

Lemma span_digits_ascii (s ds r : string) :
  span_digits s = (ds, r) -> ascii_only ds = true.
Proof.
  revert ds r. induction s as [|c s IH]; intros ds r; cbn [span_digits].
  - by intros [= <- _].
  - destruct (is_digit c) eqn:Hc; [|by intros [= <- _]].
    destruct (span_digits s) as [ds' r']. intros [= <- _].
    rewrite ascii_only_String, (is_digit_ascii c Hc). by apply (IH ds' r').
Qed.

Lemma eqb_ascii (c d : ascii) :
  Ascii.eqb c d = true -> utf8.is_ascii d = true -> utf8.is_ascii c = true.
Proof. intros ->%Ascii.eqb_eq. done. Qed.

Lemma scan_int_ascii (s i r : string) : scan_int s = Some (i, r) -> ascii_only i = true.
Proof.
  destruct s as [|c s]; [done|]. cbn [scan_int].
  destruct (Ascii.eqb c "0"); [by intros [= <- _]|].
  destruct (is_digit c) eqn:Hc; [|done].
  destruct (span_digits s) as [ds r'] eqn:Hsp. intros [= <- _].
  rewrite ascii_only_String, (is_digit_ascii c Hc). by apply (span_digits_ascii s ds r').
Qed.

Lemma scan_frac_ascii (s f r : string) : scan_frac s = Some (f, r) -> ascii_only f = true.
Proof.
  destruct s as [|c s]; [by intros [= <- _]|]. cbn [scan_frac].
  destruct (Ascii.eqb c ".") eqn:Hc; [|by intros [= <- _]].
  destruct (span_digits s) as [ds r'] eqn:Hsp.
  destruct ds as [|d ds]; [done|]. intros [= <- _].
  rewrite ascii_only_String, (eqb_ascii c "." Hc eq_refl).
  by apply (span_digits_ascii s _ r').
Qed.

Lemma scan_exp_ascii (s e r : string) : scan_exp s = Some (e, r) -> ascii_only e = true.
Proof.
  destruct s as [|c s]; [by intros [= <- _]|]. cbn [scan_exp].
  destruct (Ascii.eqb c "e" || Ascii.eqb c "E") eqn:Hc; [|by intros [= <- _]].
  assert (utf8.is_ascii c = true) as Hc'.
  { apply orb_true_iff in Hc as [Hc|Hc]; by apply (eqb_ascii _ _ Hc). }
  assert (forall sign rest', span_digits rest' = span_digits rest' ->
            ascii_only sign = true ->
            match span_digits rest' with
            | (EmptyString, _) => None
            | (ds, r0) => Some (String c (sign ++ ds), r0)
            end = Some (e, r) -> ascii_only e = true) as Hgen.
  { intros sign rest' _ Hsign. destruct (span_digits rest') as [ds r'] eqn:Hsp.
    destruct ds as [|d ds]; [done|]. intros [= <- _].
    rewrite ascii_only_String, Hc', ascii_only_app, Hsign.
    by apply (span_digits_ascii rest' _ r'). }
  destruct s as [|d s']; [by apply (Hgen "" "")|].
  destruct (Ascii.eqb d "+" || Ascii.eqb d "-") eqn:Hd; [|by apply (Hgen "")].
  apply (Hgen (String d "")); [done|].
  rewrite ascii_only_String. apply andb_true_iff. split; [|done].
  apply orb_true_iff in Hd as [Hd|Hd]; by apply (eqb_ascii _ _ Hd).
Qed.

Lemma scan_number_ascii (s lit r : string) :
  scan_number s = Some (lit, r) -> ascii_only lit = true.
Proof.
  unfold scan_number.
  assert (forall sign s0, ascii_only sign = true ->
            ('(i, s1) ← scan_int s0;
             '(f, s2) ← scan_frac s1;
             '(e, s3) ← scan_exp s2;
             Some (sign ++ i ++ f ++ e, s3)) = Some (lit, r) -> ascii_only lit = true) as Hgen.
  { intros sign s0 Hsign.
    destruct (scan_int s0) as [[i s1]|] eqn:Hi; [|done]. cbn.
    destruct (scan_frac s1) as [[f s2]|] eqn:Hf; [|done]. cbn.
    destruct (scan_exp s2) as [[e s3]|] eqn:He; [|done]. cbn.
    intros [= <- _]. rewrite !ascii_only_app, Hsign.
    by rewrite (scan_int_ascii _ _ _ Hi), (scan_frac_ascii _ _ _ Hf), (scan_exp_ascii _ _ _ He). }
  destruct s as [|c s']; [by apply (Hgen "")|].
  destruct (Ascii.eqb c "-"); [by apply (Hgen "-")|by apply (Hgen "")].
Qed.

Lemma number_ascii (lit : string) :
  numbers_ok (Number lit) = true -> ascii_only lit = true.
Proof.
  cbn [numbers_ok]. destruct (scan_number lit) as [[lit' r]|] eqn:Hs; [|done].
  destruct r; [|done]. intros ->%String.eqb_eq. by apply (scan_number_ascii _ _ _ Hs).
Qed.

Lemma valid_prefix_concat (sep : string) (l : list string) :
  valid_prefix sep -> Forall valid_prefix l -> valid_prefix (String.concat sep l).
Proof.
  intros Hsep. induction 1 as [|x l Hx Hl IH]; [apply valid_prefix_nil|].
  destruct l as [|y l]; [exact Hx|].
  change (String.concat sep (x :: y :: l)) with (x ++ sep ++ String.concat sep (y :: l)).
  by repeat apply valid_prefix_app.
Qed.

Lemma valid_prefix_encode (v : value) : numbers_ok v = true -> valid_prefix (encode v).
Proof.
  induction v as [ |b|lit|s|items IH|members IH] using value_ind'; intros Hok.
  - by apply valid_prefix_ascii_only.
  - destruct b; by apply valid_prefix_ascii_only.
  - by apply valid_prefix_ascii_only, number_ascii.
  - apply valid_prefix_appendString.
  - cbn [encode]. apply valid_prefix_app; [by apply valid_prefix_ascii_only|].
    apply valid_prefix_app; [|by apply valid_prefix_ascii_only].
    apply valid_prefix_concat; [by apply valid_prefix_ascii_only|].
    cbn [numbers_ok] in Hok. apply Forall_map.
    induction IH as [|x items Hx _ IH']; [constructor|].
    cbn [forallb] in Hok. apply andb_true_iff in Hok as [H1 H2].
    constructor; auto.
  - cbn [encode]. apply valid_prefix_app; [by apply valid_prefix_ascii_only|].
    apply valid_prefix_app; [|by apply valid_prefix_ascii_only].
    apply valid_prefix_concat; [by apply valid_prefix_ascii_only|].
    cbn [numbers_ok] in Hok. apply Forall_map.
    induction IH as [|[k x] members Hx _ IH']; [constructor|].
    cbn [forallb snd] in Hok. apply andb_true_iff in Hok as [H1 H2].
    constructor; [|auto]. cbn [fst snd].
    apply valid_prefix_app; [apply valid_prefix_appendString|].
    apply valid_prefix_app; [by apply valid_prefix_ascii_only|auto].
Qed.

(** An encoding is valid UTF-8, whatever bytes the strings of the value
    hold, and the coercion leaves it as it is. *)
Lemma encode_valid (v : value) :
  numbers_ok v = true -> utf8.ValidString (encode v) = true.
Proof.
  intros Hok. rewrite <- (append_nil_r (encode v)).
  by rewrite (valid_prefix_encode v Hok "").
Qed.

Lemma ToValidUTF8_encode (v : value) :
  numbers_ok v = true -> utf8.ToValidUTF8 (encode v) = encode v.
Proof. intros Hok. by apply ToValidUTF8_valid, encode_valid. Qed.

(** ** The payload is JSON text *)

Lemma string_object_ok (l : list (string * string)) :
  numbers_ok (Object ((fun kv => (kv.1, Str kv.2)) <$> l)) = true /\
  depth (Object ((fun kv => (kv.1, Str kv.2)) <$> l)) = 1%Z.
Proof.
  induction l as [|[k b] l [IH1 IH2]]; [done|]. simpl in *. split; [done|].
  unfold fmap in *. lia.
Qed.

Lemma envelope_ok (headers : gmap string string) (path method body : string) :
  numbers_ok (envelope headers path method body) = true /\
  depth (envelope headers path method body) = 2%Z.
Proof.
  unfold envelope, headers_value.
  destruct (string_object_ok (sorted_entries headers)) as [H1 H2].
  cbn [numbers_ok depth forallb fold_right snd] in *. rewrite H1, H2. done.
Qed.

(** The envelope parses, for every header map, path, method and body:
    what the gateway reads is the envelope with its strings coerced to
    valid UTF-8. *)
Lemma parse_envelope (headers : gmap string string) (path method body : string) :
  parse (encode (envelope headers path method body))
  = Some (Object [("headers", coerce (headers_value headers));
                  ("path", Str (utf8.ToValidUTF8 path));
                  ("httpMethod", Str (utf8.ToValidUTF8 method));
                  ("queryStringParameters", Object []);
                  ("body", Str (utf8.ToValidUTF8 body))]).
Proof.
  destruct (envelope_ok headers path method body) as [H1 H2].
  rewrite parse_encode; [done|done|]. rewrite H2. done.
Qed.

(** X11: whatever the bytes of the request, the payload [Do] sends is JSON
    text.  Read back, it is an object of five members: the headers; under
    [path] the routing string from its first ['/'] on, a query string
    included; the method; an empty [queryStringParameters]; and the body,
    in which every byte that is not part of valid UTF-8 has become
    U+FFFD. *)
Theorem Do_payload_parses (c : Client) (req : Request.t) ctx input k :
  Do c req = Invoke ctx input k ->
  exists functionName rest body failure,
    Request.URL req = functionName ++ String "/" rest /\
    ~ has_slash functionName /\
    Request.Body req = Some (Reader.mk body failure) /\
    InvokeInput.FunctionName input = functionName /\
    parse (InvokeInput.Payload input)
    = Some (Object [("headers",
                     coerce (headers_value (buildHeaders c ∪ omap head (Request.Header req))));
                    ("path", Str (utf8.ToValidUTF8 (String "/" rest)));
                    ("httpMethod", Str (utf8.ToValidUTF8 (Request.Method req)));
                    ("queryStringParameters", Object []);
                    ("body", Str (utf8.ToValidUTF8 body))]).
Proof.
  intros HD.
  destruct (Do_Invoke_inv c req ctx input k HD)
    as (f & p & body & fl & Huri & Hb & _ & _ & -> & _).
  assert (has_slash (Request.URL req)) as Hs by (apply parseUri_Ok_iff; eauto).
  destruct (parseUri_has_slash _ Hs) as (pre & post & HU & Hpre & Huri').
  rewrite Huri in Huri'. injection Huri' as -> ->.
  exists pre, post, body, fl. repeat split; try done.
  cbn [InvokeInput.Payload]. apply parse_envelope.
Qed.

Lemma Do_payload_parses_witness :
  exists functionName rest body failure,
    Request.URL sampleRequest = functionName ++ String "/" rest /\
    Request.Body sampleRequest = Some (Reader.mk body failure) /\
    parse (encode (envelope (buildHeaders sampleClient
                               ∪ omap head (Request.Header sampleRequest))
                     "/items" "GET" "hello"))
    = Some (Object [("headers",
                     coerce (headers_value (buildHeaders sampleClient
                                              ∪ omap head (Request.Header sampleRequest))));
                    ("path", Str (utf8.ToValidUTF8 (String "/" rest)));
                    ("httpMethod", Str (utf8.ToValidUTF8 (Request.Method sampleRequest)));
                    ("queryStringParameters", Object []);
                    ("body", Str (utf8.ToValidUTF8 body))]).
Proof.
  destruct (Do_payload_parses sampleClient sampleRequest _ _ _ sample_Do)
    as (f & rest & body & fl & H1 & _ & H3 & _ & H5).
  exists f, rest, body, fl. cbn [InvokeInput.Payload] in H5. by repeat split.
Defined.

(** X12: the payload [Gql] sends is JSON text, whatever the query and the
    variables: an envelope with method POST and the routing string's path.
    When [Marshal] can encode the variables, as a JSON value [V] nested
    less deep than the decoder's limit, the envelope's body is JSON text
    too, and reads back as the query and the variables. *)
Theorem Gql_payload_parses `{GoAny} (c : Client) (uri query : string)
    (variables : option (gmap string any)) ctx input k :
  Gql c uri query variables = Invoke ctx input k ->
  exists functionName rest body,
    uri = functionName ++ String "/" rest /\
    ~ has_slash functionName /\
    InvokeInput.FunctionName input = functionName /\
    parse (InvokeInput.Payload input)
    = Some (Object [("headers", coerce (headers_value (buildHeaders c)));
                    ("path", Str (utf8.ToValidUTF8 (String "/" rest)));
                    ("httpMethod", Str "POST");
                    ("queryStringParameters", Object []);
                    ("body", Str body)]) /\
    (forall V,
       to_value variables = Some V -> numbers_ok V = true ->
       (depth V < maxNestingDepth)%Z ->
       parse body = Some (Object [("query", Str (utf8.ToValidUTF8 query));
                                  ("variables", coerce V)])).
Proof.
  intros HG.
  destruct (Gql_Invoke_inv c uri query variables ctx input k HG)
    as (f0 & p & Huri & _ & -> & _).
  assert (has_slash uri) as Hs by (apply parseUri_Ok_iff; eauto).
  destruct (parseUri_has_slash _ Hs) as (f & rest & HU & Hf & Huri').
  rewrite Huri in Huri'. injection Huri' as -> ->.
  exists f, rest, (utf8.ToValidUTF8 (bytes_of (Marshal (Body.mk query variables)))).
  split; [done|]. split; [done|]. split; [done|]. split.
  - cbn [InvokeInput.Payload]. by rewrite parse_envelope.
  - intros V HV Hok Hd. rewrite (Marshal_Body query variables V HV). cbn [bytes_of].
    assert (numbers_ok (Object [("query", Str query); ("variables", V)]) = true) as Hok'
      by (cbn; by rewrite Hok).
    rewrite (ToValidUTF8_encode _ Hok'). rewrite parse_encode; [done|done|].
    cbn [depth fold_right snd]. unfold maxNestingDepth in *. lia.
Qed.

Lemma Gql_payload_parses_witness :
  exists functionName rest body,
    "fn/path" = functionName ++ String "/" rest /\
    parse body = Some (Object [("query", Str (utf8.ToValidUTF8 "query{x}"));
                               ("variables", coerce (Object [("x", Number "1")]))]).
Proof.
  destruct (Gql_payload_parses (H := sampleAny) sampleClient "fn/path" "query{x}"
              (Some {[ "x" := Decoded (Number "1") ]}) _ _ _ (sample_Gql _ _))
    as (f & rest & body & H1 & _ & _ & _ & H5).
  exists f, rest, body. split; [done|].
  apply H5; vm_compute; reflexivity.
Defined.

(** ** Answers written as JSON text *)

Lemma decode_string_entries (l : list (string * string)) (m0 : gmap string string) :
  decode_entries ((fun kv => (kv.1, Str kv.2)) <$> l) m0
  = Ok (foldl (fun m kv => <[kv.1 := kv.2]> m) m0 l).
Proof.
  revert m0. induction l as [|[k b] l IH]; intros m0; [done|].
  cbn. apply IH.
Qed.

Lemma decode_coerced_entries (l : list (string * string)) (m0 : gmap string string) :
  decode_entries (map coerce_member ((fun kv => (kv.1, Str kv.2)) <$> l)) m0
  = Ok (foldl (fun m kv => <[utf8.ToValidUTF8 kv.1 := utf8.ToValidUTF8 kv.2]> m) m0 l).
Proof.
  revert m0. induction l as [|[k b] l IH]; intros m0; [done|].
  cbn. apply IH.
Qed.

Lemma from_value_headers (h : gmap string string) :
  from_value (coerce (headers_value h)) (None : option (gmap string string))
  = Ok (Some (coerce_map h)).
Proof.
  unfold headers_value. cbn [coerce]. fold coerce_member.
  unfold from_value, map_Unmarshaler. cbn [default].
  by rewrite decode_coerced_entries.
Qed.

Lemma coerce_map_valid (h : gmap string string) : valid_map h -> coerce_map h = h.
Proof.
  intros Hv. unfold coerce_map. rewrite <- (foldl_insert_sorted_entries h) at 2.
  assert (Forall (fun kv => utf8.ValidString kv.1 = true /\ utf8.ValidString kv.2 = true)
            (sorted_entries h)) as HF.
  { apply Forall_forall. intros [k v] Hin. cbn [fst snd]. apply (Hv k v).
    apply elem_of_map_to_list. by rewrite <- (sorted_entries_perm h). }
  generalize (∅ : gmap string string).
  induction HF as [|[k v] l [Hk Hx] _ IH]; intros m0; [done|].
  cbn [foldl fst snd] in *. rewrite (ToValidUTF8_valid _ Hk), (ToValidUTF8_valid _ Hx).
  apply IH.
Qed.

Lemma responseText_ok (body status : string) (headers : gmap string string) :
  numbers_ok (Number status) = true ->
  parse (responseText body status headers)
  = Some (Object [("body", Str (utf8.ToValidUTF8 body)); ("statusCode", Number status);
                  ("headers", coerce (headers_value headers))]).
Proof.
  intros Hn. unfold responseText.
  destruct (string_object_ok (sorted_entries headers)) as [H1 H2].
  rewrite parse_encode; [done| |].
  - unfold headers_value. cbn [numbers_ok forallb snd] in *. by rewrite Hn, H1.
  - unfold headers_value. cbn [depth fold_right snd] in *. rewrite H2. done.
Qed.

Lemma Unmarshal_responseText (body status : string) (n : Z) (headers : gmap string string) :
  numbers_ok (Number status) = true -> ParseInt status = Some n ->
  Unmarshal (responseText body status headers) (zero : responsePayload.t)
  = Ok (responsePayload.mk (utf8.ToValidUTF8 body) n (Some (coerce_map headers))).
Proof.
  intros Hn Hp. unfold Unmarshal. rewrite (responseText_ok _ _ _ Hn).
  unfold from_value at 1, responsePayload_Unmarshaler, decode_struct.
  cbn [foldl fst snd rbind].
  change (equalFold "body" "body") with true.
  change (equalFold "body" "statusCode") with false.
  change (equalFold "statusCode" "statusCode") with true.
  change (equalFold "body" "headers") with false.
  change (equalFold "statusCode" "headers") with false.
  change (equalFold "headers" "headers") with true.
  cbv iota.
  cbn [from_value string_Unmarshaler rbind responsePayload.Body responsePayload.StatusCode
       responsePayload.Headers zero responsePayload_Zero].
  unfold from_value at 1, int_Unmarshaler. rewrite Hp. cbn [rbind].
  cbn [responsePayload.Body responsePayload.StatusCode responsePayload.Headers].
  rewrite from_value_headers. done.
Qed.

(** X13: an answer written as the JSON object of a [responsePayload], with
    an integer status code that fits 64 bits: [Do] returns the response
    with that status code, the body, and each header with its one value;
    strings are read coerced to valid UTF-8, so a body and headers that
    are valid UTF-8 come out as they were written. *)
Theorem Do_response_of_json (c : Client) (req : Request.t) ctx input k
    (body status : string) (n : Z) (headers : gmap string string) :
  Do c req = Invoke ctx input k ->
  numbers_ok (Number status) = true -> ParseInt status = Some n ->
  k (Ok (InvokeOutput.mk (responseText body status headers)))
  = Ret (Ok (Response.mk (utf8.ToValidUTF8 body) n (toHeader (Some (coerce_map headers))))) /\
  (utf8.ValidString body = true -> valid_map headers ->
   k (Ok (InvokeOutput.mk (responseText body status headers)))
   = Ret (Ok (Response.mk body n (toHeader (Some headers))))).
Proof.
  intros HD Hn Hp.
  destruct (Do_Invoke_inv c req ctx input k HD) as (_ & _ & _ & _ & _ & _ & _ & _ & _ & ->).
  assert (toResponse (Ok (InvokeOutput.mk (responseText body status headers)))
          = Ret (Ok (Response.mk (utf8.ToValidUTF8 body) n
                       (toHeader (Some (coerce_map headers)))))) as E.
  { unfold toResponse. cbn [InvokeOutput.Payload].
    by rewrite (Unmarshal_responseText body status n headers Hn Hp). }
  split; [exact E|]. intros Hb Hh.
  by rewrite E, (ToValidUTF8_valid _ Hb), (coerce_map_valid _ Hh).
Qed.

Lemma Do_response_of_json_witness :
  toResponse (Ok (InvokeOutput.mk (responseText "hello" "404" {[ "X-Test" := "v" ]})))
  = Ret (Ok (Response.mk "hello" 404 (toHeader (Some {[ "X-Test" := "v" ]})))).
Proof.
  refine (proj2 (Do_response_of_json sampleClient sampleRequest _ _ _
                   "hello" "404" 404 {[ "X-Test" := "v" ]} sample_Do _ _) _ _);
    [reflexivity|reflexivity|reflexivity|].
  intros k v Hkv. destruct (decide (k = "X-Test")) as [->|Hne].
  - rewrite lookup_singleton_eq in Hkv. injection Hkv as <-. done.
  - by rewrite lookup_singleton_ne in Hkv.
Defined.

Lemma Unmarshal_dataBody `{GoAny} (data : value) (d : option (gmap string any)) :
  numbers_ok data = true -> (depth data < maxNestingDepth)%Z ->
  from_value (coerce data) (None : option (gmap string any)) = Ok d ->
  Unmarshal (encode (dataBody data)) (zero : responseBody.t) = Ok (responseBody.mk d []).
Proof.
  intros Hok Hd Hdec. unfold Unmarshal, dataBody. rewrite parse_encode.
  - cbn [coerce map fst snd].
    change (utf8.ToValidUTF8 "data") with "data".
    change (utf8.ToValidUTF8 "errors") with "errors".
    unfold from_value at 1, responseBody_Unmarshaler, decode_struct.
    cbn [foldl fst snd].
    change (equalFold "data" "data") with true.
    change (equalFold "data" "errors") with false.
    change (equalFold "errors" "errors") with true.
    cbv iota. cbn [rbind zero responseBody_Zero responseBody.Data responseBody.Errors].
    rewrite Hdec. cbn [rbind responseBody.Data responseBody.Errors]. done.
  - cbn [numbers_ok forallb snd]. by rewrite Hok.
  - cbn [depth fold_right snd]. unfold maxNestingDepth in *. lia.
Qed.



(** ** Answers that are not a [responsePayload] *)

Lemma decode_no_field (members : list (string * value)) (p : responsePayload.t) :
  Forall names_no_field members ->
  from_value (Object members) p = Ok p.
Proof.
  unfold from_value, responsePayload_Unmarshaler, decode_struct.
  induction 1 as [|[key v] members (Hb & Hs & Hh) _ IH]; [done|].
  cbn [foldl fst snd rbind] in *. by rewrite Hb, Hs, Hh.
Qed.

(** X15: an answer that is JSON text but names none of the fields [body],
    [statusCode], [headers] (letter case apart), as [null], [{}] or the
    error report of a failed function: the code does not take it for an
    error of the call.  [Do] returns a response with status code 0, an
    empty body and no header, and no error; [Gql] returns the decoder's
    syntax error for the empty body. *)
Theorem answer_without_fields `{GoAny} (c : Client) (req : Request.t)
    (uri query : string) (variables : option (gmap string any))
    ctx input k ctx' input' k' (resp : InvokeOutput.t)
    (members : list (string * value)) :
  Do c req = Invoke ctx input k ->
  Gql c uri query variables = Invoke ctx' input' k' ->
  parse (InvokeOutput.Payload resp) = Some Null \/
  (parse (InvokeOutput.Payload resp) = Some (Object members) /\
   Forall names_no_field members) ->
  k (Ok resp) = Ret (Ok (Response.mk "" 0 ∅)) /\
  k' (Ok resp) = Ret (Err SyntaxError).
Proof.
  intros HD HG Hp.
  destruct (Do_Invoke_inv c req ctx input k HD) as (_ & _ & _ & _ & _ & _ & _ & _ & _ & ->).
  destruct (Gql_Invoke_inv c uri query variables ctx' input' k' HG)
    as (_ & _ & _ & _ & _ & ->).
  assert (Unmarshal (InvokeOutput.Payload resp) (zero : responsePayload.t)
          = Ok (zero : responsePayload.t)) as HU.
  { unfold Unmarshal. destruct Hp as [->|[-> HF]]; [done|]. by apply decode_no_field. }
  unfold toResponse, toData. rewrite HU.
  cbn [zero responsePayload_Zero responsePayload.Body responsePayload.StatusCode
       responsePayload.Headers].
  split; [|done]. unfold toHeader. cbn [default]. by rewrite fmap_empty.
Qed.

Lemma answer_without_fields_witness :
  toResponse (Ok functionError) = Ret (Ok (Response.mk "" 0 ∅)) /\
  toData (H := sampleAny) (Ok functionError) = Ret (Err SyntaxError).
Proof.
  apply (answer_without_fields (H := sampleAny) sampleClient sampleRequest
           "fn/path" "query{x}" None _ _ _ _ _ _ functionError
           [("errorMessage", Str "boom"); ("errorType", Str "Error")]
           sample_Do (sample_Gql _ _)).
  right. split; [vm_compute; reflexivity|].
  repeat constructor.
Defined.

(** ** The policy header and the rule set *)

(** X16: the policy header tells the rule sets apart: two clients whose rule
    keys are valid UTF-8 and whose policy headers are equal have the same
    rule set, a [nil] one and an empty one being different. *)
Theorem policy_injective (c1 c2 : Client) :
  valid_keys (rules c1) -> valid_keys (rules c2) ->
  buildHeaders c1 !! "LifeOmic-Policy" = buildHeaders c2 !! "LifeOmic-Policy" ->
  rules c1 = rules c2.
Proof.
  intros H1 H2. rewrite !buildHeaders_policy. intros E.
  assert (encode (policy_value (rules c1)) = encode (policy_value (rules c2))) as E'
    by congruence.
  clear E. rename E' into E.
  pose proof (Unmarshal_policy (rules c1) H1) as U1.
  pose proof (Unmarshal_policy (rules c2) H2) as U2.
  rewrite E in U1. rewrite U1 in U2. by injection U2.
Qed.

Lemma policy_injective_witness :
  rules sampleClient = rules (mkClient "other" "bob" (rules sampleClient)).
Proof.
  apply (policy_injective sampleClient (mkClient "other" "bob" (rules sampleClient)));
    [apply sampleClient_valid_keys|apply sampleClient_valid_keys|reflexivity].
Defined.

(** Without the condition on the keys it does not: a key that is the byte
    0xFF and a key that is the byte 0xFE give the same policy header. *)
Example policy_not_injective :
  buildHeaders badClient !! "LifeOmic-Policy"
  = buildHeaders otherBadClient !! "LifeOmic-Policy" /\
  rules badClient <> rules otherBadClient.
Proof.
  split; [vm_compute; reflexivity|].
  intros E. apply (f_equal (fun r => r ≫= (.!! String (byte_of 255) ""))) in E.
  vm_compute in E. discriminate E.
Qed.

Lemma encode_Object_cons (k : string) (v : value) (members : list (string * value)) :
  exists t, encode (Object ((k, v) :: members)) = String "{" (String dquote t).
Proof.
  cbn [encode map]. destruct members as [|m members].
  - cbn [String.concat fst snd]. unfold appendString. norm_app. eauto.
  - change (String.concat "," (?x :: map ?f (m :: members)))
      with (x ++ "," ++ String.concat "," (map f (m :: members))).
    cbn [fst snd]. unfold appendString at 1. norm_app. eauto.
Qed.

Lemma encode_rules_head (m : gmap string bool) :
  exists t, encode (rules_value (Some m)) = String "{" t.
Proof.
  unfold rules_value. destruct (_ <$> sorted_entries m) as [|[k v] l].
  - by exists "}".
  - destruct (encode_Object_cons k v l) as [t ->]. eauto.
Qed.

Lemma encode_policy_value (rules : option (gmap string bool)) :
  encode (policy_value rules)
  = String "{" (String dquote ("rules" ++ String dquote (String ":"
      (encode (rules_value rules) ++ "}")))).
Proof. unfold policy_value. cbn [encode map String.concat fst snd]. by norm_app. Qed.

Lemma append_inj_r (a b c : string) : a ++ b = a ++ c -> b = c.
Proof. induction a as [|x a IH]; [done|]. rewrite !append_String. intros [= E]. auto. Qed.

Lemma sorted_entries_nil {A : Type} (m : gmap string A) : sorted_entries m = [] -> m = ∅.
Proof.
  intros E. apply map_to_list_empty_iff. apply Permutation_nil_r.
  rewrite <- (sorted_entries_perm m). by rewrite E.
Qed.

Lemma encode_policy_value_inj (r1 r2 : option (gmap string bool)) :
  encode (policy_value r1) = encode (policy_value r2) ->
  encode (rules_value r1) ++ "}" = encode (rules_value r2) ++ "}".
Proof.
  rewrite !encode_policy_value. intros E. by injection E.
Qed.

Lemma policy_value_empty :
  policy_value (Some ∅) = Object [("rules", Object [])].
Proof. unfold policy_value, rules_value. by rewrite sorted_entries_empty. Qed.

(** X17: the policy header shows whether the rule set is [nil] or empty: it
    is the text of [{"rules": null}] exactly for a [nil] rule set, and the
    text of [{"rules": {}}] exactly for an empty one. *)
Theorem policy_nil_or_empty (c : Client) :
  (buildHeaders c !! "LifeOmic-Policy" = Some (encode (Object [("rules", Null)])) <->
   rules c = None) /\
  (buildHeaders c !! "LifeOmic-Policy" = Some (encode (Object [("rules", Object [])])) <->
   rules c = Some ∅).
Proof.
  rewrite buildHeaders_policy. split; split.
  - intros E. apply (inj Some) in E. destruct (rules c) as [m|]; [|done].
    apply (encode_policy_value_inj (Some m) None) in E.
    destruct (encode_rules_head m) as [t Ht]. rewrite Ht in E. discriminate E.
  - by intros ->.
  - intros E. apply (inj Some) in E. rewrite <- policy_value_empty in E.
    apply (encode_policy_value_inj (rules c) (Some ∅)) in E.
    destruct (rules c) as [m|]; [|discriminate E].
    f_equal. apply sorted_entries_nil.
    unfold rules_value in E. rewrite sorted_entries_empty in E.
    destruct (sorted_entries m) as [|[k v] l]; [done|].
    cbn [fmap list_fmap fst snd] in E.
    destruct (encode_Object_cons k (Bool v) ((fun kv => (kv.1, Bool kv.2)) <$> l))
      as [t Ht].
    rewrite Ht in E. discriminate E.
  - intros ->. by rewrite policy_value_empty.
Qed.

(** ** What the gateway reads of the fixed headers *)

(** A string whose coercion is ASCII is valid: a byte that is not part of
    valid UTF-8 leaves the byte 0xEF in the coercion. *)
Lemma ToValidUTF8_ascii_le (n : nat) (s : string) :
  (String.length s <= n)%nat ->
  ascii_only (utf8.ToValidUTF8 s) = true -> utf8.ToValidUTF8 s = s.
Proof.
  unfold utf8.ToValidUTF8.
  revert s. induction n as [|n IH]; intros s Hn.
  - destruct s; [done|simpl in Hn; lia].
  - destruct s as [|b0 s1]; [done|]. simpl in Hn. cbn [utf8.chunks].
    destruct (utf8.is_ascii b0) eqn:H0.
    { cbn [fold_right utf8.chunk_bytes]. rewrite !append_String, append_nil_l.
      rewrite ascii_only_String. intros [_ H]%andb_true_iff.
      rewrite IH by (done || lia). done. }
    assert (forall t, ascii_only (String b0 t) = false) as Hb0
      by (intros t; by rewrite ascii_only_String, H0).
    destruct s1 as [|b1 s2]; [done|]. simpl in Hn.
    destruct (utf8.seq2 b0 b1).
    { cbn [fold_right utf8.chunk_bytes]. rewrite !append_String. by rewrite Hb0. }
    destruct s2 as [|b2 s3]; [done|]. simpl in Hn.
    destruct (utf8.seq3 b0 b1 b2).
    { cbn [fold_right utf8.chunk_bytes]. rewrite !append_String. by rewrite Hb0. }
    destruct s3 as [|b3 s4]; [done|]. simpl in Hn.
    destruct (utf8.seq4 b0 b1 b2 b3); [|done].
    cbn [fold_right utf8.chunk_bytes]. rewrite !append_String. by rewrite Hb0.
Qed.

Lemma ToValidUTF8_ascii (s k : string) :
  ascii_only k = true -> utf8.ToValidUTF8 s = k -> s = k.
Proof.
  intros Hk E. rewrite <- E in Hk. rewrite <- E.
  symmetry. by apply (ToValidUTF8_ascii_le (String.length s)).
Qed.

Lemma ascii_only_valid (k : string) : ascii_only k = true -> utf8.ToValidUTF8 k = k.
Proof.
  intros Hk. apply ToValidUTF8_valid. rewrite <- (append_nil_r k).
  by rewrite (valid_prefix_ascii_only k Hk "").
Qed.

(** Looking up an ASCII key in a map read back from its encoding. *)
Lemma foldl_coerce_lookup (l : list (string * string)) (m0 : gmap string string)
    (k : string) :
  ascii_only k = true -> NoDup l.*1 ->
  foldl (fun m kv => <[utf8.ToValidUTF8 kv.1 := utf8.ToValidUTF8 kv.2]> m) m0 l !! k
  = match (list_to_map l : gmap string string) !! k with
    | Some v => Some (utf8.ToValidUTF8 v)
    | None => m0 !! k
    end.
Proof.
  intros Hk. revert m0. induction l as [|[k' v'] l IH]; intros m0 Hnd; [done|].
  apply NoDup_cons in Hnd as [Hk' Hnd]. cbn [foldl fst snd]. rewrite IH by done.
  rewrite list_to_map_cons. cbn [fst snd].
  destruct (decide (k' = k)) as [->|Hne].
  - rewrite lookup_insert_eq.
    rewrite (not_elem_of_list_to_map_1 _ _ Hk').
    by rewrite (ascii_only_valid k Hk), lookup_insert_eq.
  - rewrite (lookup_insert_ne _ k' k) by done.
    destruct (list_to_map l !! k); [done|].
    rewrite lookup_insert_ne; [done|].
    intros E. apply Hne. by apply ToValidUTF8_ascii.
Qed.

Lemma coerce_map_lookup (h : gmap string string) (k : string) :
  ascii_only k = true -> coerce_map h !! k = utf8.ToValidUTF8 <$> h !! k.
Proof.
  intros Hk. unfold coerce_map.
  assert (NoDup (sorted_entries h).*1) as Hnd.
  { rewrite (sorted_entries_perm h). apply NoDup_fst_map_to_list. }
  rewrite (foldl_coerce_lookup _ _ k Hk Hnd).
  rewrite (list_to_map_proper _ _ Hnd (sorted_entries_perm h)), list_to_map_to_list.
  by destruct (h !! k).
Qed.

Lemma policy_text_valid (rules : option (gmap string bool)) :
  utf8.ToValidUTF8 (encode (policy_value rules)) = encode (policy_value rules).
Proof. apply ToValidUTF8_encode. by destruct (policy_value_ok rules). Qed.

Lemma envelope_reads_fixed_headers (c : Client) (extra : gmap string string)
    (functionName path method body : string) :
  reads_fixed_headers c
    (InvokeInput.mk functionName
       (encode (envelope (buildHeaders c ∪ extra) path method body))).
Proof.
  unfold reads_fixed_headers. cbn [InvokeInput.Payload]. rewrite parse_envelope.
  eexists _, _, _, (encode (policy_value (rules c))).
  split; [reflexivity|]. split; [apply from_value_headers|].
  assert (forall key v, ascii_only key = true -> buildHeaders c !! key = Some v ->
            coerce_map (buildHeaders c ∪ extra) !! key = Some (utf8.ToValidUTF8 v)) as Hl.
  { intros key v Hk Hv. rewrite (coerce_map_lookup _ key Hk).
    by rewrite (lookup_union_Some_l _ _ _ _ Hv). }
  split; [apply Hl; [done|]; unfold buildHeaders; by rewrite lookup_insert_eq|].
  split; [apply Hl; [done|]; unfold buildHeaders; rewrite lookup_insert_ne by done;
          by rewrite lookup_insert_eq|].
  split; [apply (Hl "content-type" "application/json"); [done|]; unfold buildHeaders;
          do 2 (rewrite lookup_insert_ne by done); by rewrite lookup_insert_eq|].
  split; [rewrite <- (policy_text_valid (rules c)); apply Hl;
          [done|apply buildHeaders_policy]|].
  split; [apply buildHeaders_policy|]. apply Unmarshal_policy.
Qed.

(** X18: in every call [Do] or [Gql] makes, a gateway that decodes the
    payload reads the client's four fixed headers: no header of the
    request, whatever its bytes, takes the place of one, and the policy
    header comes through both layers of JSON text unchanged, so that it
    decodes to the client's rule set. *)
Theorem fixed_headers_arrive `{GoAny} (c : Client) :
  (forall req ctx input k, Do c req = Invoke ctx input k -> reads_fixed_headers c input) /\
  (forall req ctx input k,
     LambdaClient.Do c req = Invoke ctx input k -> reads_fixed_headers c input) /\
  (forall uri query variables ctx input k,
     Gql c uri query variables = Invoke ctx input k -> reads_fixed_headers c input).
Proof.
  split; [|split].
  - intros req ctx input k HD.
    destruct (Do_Invoke_inv c req ctx input k HD) as (f & p & body & fl & _ & _ & _ & _ & -> & _).
    apply envelope_reads_fixed_headers.
  - intros req ctx input k HD.
    destruct (LambdaClient_Do_cases c req)
      as [[_ E]|[(_ & _ & E)|[(_ & _ & _ & E)|[(_ & _ & E)|(_ & _ & E)]]]];
      [congruence|congruence|congruence| |].
    + destruct E as (? & ? & _ & E). congruence.
    + destruct E as (f & p & body & _ & _ & E). rewrite E in HD.
      assert (input = DoInput c req f p body) as -> by congruence.
      apply envelope_reads_fixed_headers.
  - intros uri query variables ctx input k HG.
    destruct (Gql_Invoke_inv c uri query variables ctx input k HG)
      as (f & p & _ & _ & -> & _).
    rewrite <- (map_union_empty (buildHeaders c)).
    apply envelope_reads_fixed_headers.
Qed.

Lemma fixed_headers_arrive_witness :
  reads_fixed_headers sampleClient
    (InvokeInput.mk "svc"
       (encode (envelope (buildHeaders sampleClient
                            ∪ omap head (Request.Header sampleRequest))
                  "/items" "GET" "hello"))).
Proof.
  exact (proj1 (fixed_headers_arrive (H := sampleAny) sampleClient)
           sampleRequest _ _ _ sample_Do).
Defined.

(** ** [parseUri], from its result *)

(** X19: [parseUri] returns a function name and a path exactly when the
    routing string is the function name followed by the path, the function
    name has no ['/'] and the path starts with one: joining what
    [parseUri] returns gives the routing string back, and splitting a
    joined name and path gives them back. *)
Theorem parseUri_Ok_split (uri functionName path : string) :
  parseUri uri = Ok (functionName, path) <->
  uri = functionName ++ path /\ ~ has_slash functionName /\
  exists rest, path = String "/" rest.
Proof.
  split.
  - intros Hok.
    assert (has_slash uri) as Hs by (apply parseUri_Ok_iff; eauto).
    destruct (parseUri_has_slash uri Hs) as (pre & post & -> & Hpre & E).
    rewrite E in Hok. injection Hok as <- <-. eauto.
  - intros (-> & Hf & rest & ->). by apply parseUri_split.
Qed.

(** ** The order of the header loop *)

(** X20: the loop of [Do] over the request's headers gives the same result
    in whatever order the map is walked: the same headers, or the same
    panic.  (Go walks a map in an order that changes from run to run.) *)
Theorem header_loop_any_order (header : gmap string (list string))
    (entries : list (string * list string)) (fixed : gmap string string) :
  entries ≡ₚ map_to_list header ->
  copyHeaders entries fixed = copyHeaders (map_to_list header) fixed.
Proof.
  intros Hperm.
  assert (NoDup entries.*1) as Hnd.
  { rewrite Hperm. apply NoDup_fst_map_to_list. }
  destruct (copyHeaders entries fixed) as [h1|] eqn:H1;
    destruct (copyHeaders (map_to_list header) fixed) as [h2|] eqn:H2.
  - apply copyHeaders_Some in H1. apply copyHeaders_map in H2.
    rewrite (list_to_map_proper _ _ Hnd Hperm), list_to_map_to_list in H1.
    congruence.
  - apply copyHeaders_map_None in H2 as (key & Hf & Hv).
    assert (copyHeaders entries fixed = None) as E; [|congruence].
    apply copyHeaders_None; [done|]. exists key. split; [done|].
    rewrite Hperm. by apply elem_of_map_to_list.
  - apply copyHeaders_None in H1 as (key & Hf & Hin); [|done].
    assert (copyHeaders (map_to_list header) fixed = None) as E; [|congruence].
    apply copyHeaders_map_None. exists key. split; [done|].
    apply elem_of_map_to_list. by rewrite <- Hperm.
  - done.
Qed.

Lemma header_loop_any_order_witness :
  copyHeaders (reverse (map_to_list (Request.Header sampleRequest)))
    (buildHeaders sampleClient)
  = copyHeaders (map_to_list (Request.Header sampleRequest)) (buildHeaders sampleClient).
Proof.
  apply (header_loop_any_order (Request.Header sampleRequest)).
  apply reverse_Permutation.
Defined.

(** ** A body that is not valid UTF-8 *)

Lemma ToValidUTF8_length_le (n : nat) (s : string) :
  (String.length s <= n)%nat ->
  (String.length s <= String.length (utf8.ToValidUTF8 s))%nat /\
  (String.length (utf8.ToValidUTF8 s) = String.length s -> utf8.ValidString s = true).
Proof.
  unfold utf8.ToValidUTF8, utf8.ValidString.
  revert s. induction n as [|n IH]; intros s Hn.
  - destruct s; [done|simpl in Hn; lia].
  - destruct s as [|b0 s1]; [done|]. simpl in Hn.
    assert (forall t, (String.length t <= n)%nat ->
      (S (String.length t) <= String.length
         (utf8.replacement ++ foldr (fun c acc => utf8.chunk_bytes c ++ acc) "" (utf8.chunks t)))%nat /\
      (String.length
         (utf8.replacement ++ foldr (fun c acc => utf8.chunk_bytes c ++ acc) "" (utf8.chunks t))
       = S (String.length t) -> False)) as Hbad.
    { intros t Ht. destruct (IH t Ht) as [H1 _]. rewrite length_append.
      change (String.length utf8.replacement) with 3%nat. lia. }
    cbn [utf8.chunks].
    destruct (utf8.is_ascii b0).
    { cbn [fold_right forallb utf8.chunk_ok utf8.chunk_bytes andb].
      rewrite !append_String, append_nil_l. cbn [String.length].
      destruct (IH s1 ltac:(lia)) as [H1 H2]. split; [lia|]. intros E. apply H2. lia. }
    destruct s1 as [|b1 s2].
    { cbn [fold_right forallb utf8.chunk_ok andb]. cbn [utf8.chunk_bytes].
      destruct (Hbad "" ltac:(simpl; lia)) as [H1 H2].
      split; [exact H1|]. intros E. by destruct (H2 E). }
    simpl in Hn. destruct (utf8.seq2 b0 b1).
    { cbn [fold_right forallb utf8.chunk_ok utf8.chunk_bytes andb].
      rewrite !append_String, append_nil_l. cbn [String.length].
      destruct (IH s2 ltac:(lia)) as [H1 H2]. split; [lia|]. intros E. apply H2. lia. }
    destruct s2 as [|b2 s3].
    { cbn [fold_right forallb utf8.chunk_ok andb]. cbn [utf8.chunk_bytes].
      destruct (Hbad (String b1 "") ltac:(simpl; lia)) as [H1 H2].
      split; [exact H1|]. intros E. by destruct (H2 E). }
    simpl in Hn. destruct (utf8.seq3 b0 b1 b2).
    { cbn [fold_right forallb utf8.chunk_ok utf8.chunk_bytes andb].
      rewrite !append_String, append_nil_l. cbn [String.length].
      destruct (IH s3 ltac:(lia)) as [H1 H2]. split; [lia|]. intros E. apply H2. lia. }
    destruct s3 as [|b3 s4].
    { cbn [fold_right forallb utf8.chunk_ok andb]. cbn [utf8.chunk_bytes].
      destruct (Hbad (String b1 (String b2 "")) ltac:(simpl; lia)) as [H1 H2].
      split; [exact H1|]. intros E. by destruct (H2 E). }
    simpl in Hn. destruct (utf8.seq4 b0 b1 b2 b3).
    { cbn [fold_right forallb utf8.chunk_ok utf8.chunk_bytes andb].
      rewrite !append_String, append_nil_l. cbn [String.length].
      destruct (IH s4 ltac:(lia)) as [H1 H2]. split; [lia|]. intros E. apply H2. lia. }
    cbn [fold_right forallb utf8.chunk_ok andb]. cbn [utf8.chunk_bytes].
    destruct (Hbad (String b1 (String b2 (String b3 s4))) ltac:(simpl; lia)) as [H1 H2].
    split; [exact H1|]. intros E. by destruct (H2 E).
Qed.

(** The coercion leaves a string as it is exactly when it is valid. *)
Lemma ToValidUTF8_id_iff (s : string) :
  utf8.ToValidUTF8 s = s <-> utf8.ValidString s = true.
Proof.
  split; [|apply ToValidUTF8_valid].
  intros E. apply (ToValidUTF8_length_le (String.length s) s); [done|]. by rewrite E.
Qed.

(** X21: the gateway reads, under [body], the body of the request as it was
    sent exactly when the body is valid UTF-8: [Do] sends any other body,
    as a compressed or binary one, changed, and without an error. *)
Theorem Do_body_intact_iff (c : Client) (req : Request.t) ctx input k
    (body : string) (failure : option error) :
  Do c req = Invoke ctx input k ->
  Request.Body req = Some (Reader.mk body failure) ->
  (exists headers path method,
     parse (InvokeInput.Payload input)
     = Some (Object [("headers", headers); ("path", path); ("httpMethod", method);
                     ("queryStringParameters", Object []); ("body", Str body)])) <->
  utf8.ValidString body = true.
Proof.
  intros HD Hb.
  destruct (Do_Invoke_inv c req ctx input k HD)
    as (f & p & body' & fl & _ & Hb' & _ & _ & -> & _).
  rewrite Hb in Hb'. injection Hb' as <- <-.
  cbn [InvokeInput.Payload]. rewrite parse_envelope. split.
  - intros (hs & path & method & E). apply ToValidUTF8_id_iff. congruence.
  - intros Hv. rewrite (ToValidUTF8_valid _ Hv). eauto.
Qed.

Lemma binary_Do :
  Do sampleClient binaryRequest
  = Invoke Background
      (InvokeInput.mk "svc"
         (encode (envelope (buildHeaders sampleClient) "/items" "POST"
                    (String (byte_of 255) ""))))
      toResponse.
Proof.
  apply (Do_Invoke_intro sampleClient binaryRequest "svc" "/items" _
           (String (byte_of 255) "") None); [| |done]; vm_compute; reflexivity.
Qed.

Lemma Do_body_intact_iff_witness :
  (exists headers path method,
     parse (encode (envelope (buildHeaders sampleClient) "/items" "POST"
                      (String (byte_of 255) "")))
     = Some (Object [("headers", headers); ("path", path); ("httpMethod", method);
                     ("queryStringParameters", Object []);
                     ("body", Str (String (byte_of 255) ""))])) <->
  utf8.ValidString (String (byte_of 255) "") = true.
Proof.
  exact (Do_body_intact_iff sampleClient binaryRequest _ _ _ _ None binary_Do eq_refl).
Defined.

(** The body made of the byte 0xFF arrives as U+FFFD. *)
Example Do_binary_body :
  utf8.ValidString (String (byte_of 255) "") = false /\
  utf8.ToValidUTF8 (String (byte_of 255) "") = utf8.replacement.
Proof. split; reflexivity. Qed.

(** ** A status code that is not an integer *)

(** X22: an answer whose status code is a JSON number that is not an
    integer of 64 bits, as [200.5], [2e2] or [9223372036854775808], makes
    [Do] return the decoder's type error, and no response. *)
Theorem Do_status_not_integer (c : Client) (req : Request.t) ctx input k
    (body status : string) (headers : gmap string string) :
  Do c req = Invoke ctx input k ->
  numbers_ok (Number status) = true -> ParseInt status = None ->
  k (Ok (InvokeOutput.mk (responseText body status headers)))
  = Ret (Err UnmarshalTypeError).
Proof.
  intros HD Hn Hp.
  destruct (Do_Invoke_inv c req ctx input k HD) as (_ & _ & _ & _ & _ & _ & _ & _ & _ & ->).
  unfold toResponse, Unmarshal. cbn [InvokeOutput.Payload].
  rewrite (responseText_ok _ _ _ Hn).
  unfold from_value at 1, responsePayload_Unmarshaler, decode_struct.
  cbn [foldl fst snd rbind].
  change (equalFold "body" "body") with true.
  change (equalFold "body" "statusCode") with false.
  change (equalFold "statusCode" "statusCode") with true.
  cbv iota.
  cbn [from_value string_Unmarshaler rbind responsePayload.Body responsePayload.StatusCode
       responsePayload.Headers zero responsePayload_Zero].
  unfold from_value at 1, int_Unmarshaler. rewrite Hp. cbn [rbind]. done.
Qed.

Lemma Do_status_not_integer_witness :
  toResponse (Ok (InvokeOutput.mk (responseText "hello" "2e2" ∅)))
  = Ret (Err UnmarshalTypeError).
Proof.
  apply (Do_status_not_integer sampleClient sampleRequest _ _ _ "hello" "2e2" ∅ sample_Do);
    reflexivity.
Defined.

(** ** Errors written as JSON text *)

Lemma errors_ok (messages : list string) :
  forallb numbers_ok (errorValue <$> messages) = true /\
  (edepth (errorValue <$> messages) <= 1)%Z.
Proof.
  induction messages as [|m ms [IH1 IH2]]; [done|]. split.
  - exact IH1.
  - change (Z.max 1 (edepth (errorValue <$> ms)) <= 1)%Z. lia.
Qed.

Lemma from_value_errorValue (m : string) :
  from_value (coerce (errorValue m)) (zero : errorItem.t)
  = Ok (errorItem.mk (utf8.ToValidUTF8 m)).
Proof.
  cbn [errorValue coerce map fst snd].
  change (utf8.ToValidUTF8 "message") with "message".
  unfold from_value at 1, errorItem_Unmarshaler, decode_struct.
  cbn [foldl fst snd rbind]. change (equalFold "message" "message") with true.
  cbv iota. done.
Qed.

Lemma decode_items_cons {A : Type} `{Unmarshaler A} `{Zero A} (v : value) (rest : list value) :
  decode_items (A := A) (v :: rest) []
  = rbind (from_value v (zero : A))
      (fun x => rbind (decode_items (A := A) rest []) (fun xs => Ok (x :: xs))).
Proof. reflexivity. Qed.

Lemma decode_error_items (messages : list string) :
  decode_items (map coerce (errorValue <$> messages)) []
  = Ok (errorItem.mk <$> (utf8.ToValidUTF8 <$> messages)).
Proof.
  induction messages as [|m ms IH]; [done|].
  change (map coerce (errorValue <$> (m :: ms)))
    with (coerce (errorValue m) :: map coerce (errorValue <$> ms)).
  by rewrite decode_items_cons, from_value_errorValue, IH.
Qed.

Lemma Unmarshal_errorsBody `{GoAny} (data : value) (d : option (gmap string any))
    (messages : list string) :
  numbers_ok data = true -> (depth data < maxNestingDepth)%Z ->
  from_value (coerce data) (None : option (gmap string any)) = Ok d ->
  Unmarshal (encode (errorsBody data messages)) (zero : responseBody.t)
  = Ok (responseBody.mk d (errorItem.mk <$> (utf8.ToValidUTF8 <$> messages))).
Proof.
  intros Hok Hd Hdec. unfold Unmarshal, errorsBody.
  destruct (errors_ok messages) as [He1 He2]. rewrite parse_encode.
  - cbn [coerce map fst snd].
    change (utf8.ToValidUTF8 "data") with "data".
    change (utf8.ToValidUTF8 "errors") with "errors".
    unfold from_value at 1, responseBody_Unmarshaler, decode_struct.
    cbn [foldl fst snd].
    change (equalFold "data" "data") with true.
    change (equalFold "data" "errors") with false.
    change (equalFold "errors" "errors") with true.
    cbv iota. cbn [rbind zero responseBody_Zero responseBody.Data responseBody.Errors].
    rewrite Hdec. cbn [rbind responseBody.Data responseBody.Errors].
    unfold from_value at 1, slice_Unmarshaler.
    rewrite (decode_error_items messages). done.
  - cbn [numbers_ok forallb snd]. by rewrite Hok, He1.
  - cbn [depth fold_right snd]. fold (edepth (errorValue <$> messages)).
    unfold maxNestingDepth in *. lia.
Qed.



(** A [data] member that is not an object or [null] comes first: the
    decoder's type error is returned, not the GraphQL error. *)
Example Gql_data_not_a_map :
  toData (H := sampleAny)
    (Ok (InvokeOutput.mk
           (responseText (encode (errorsBody (Array []) ["boom"])) "200" ∅)))
  = Ret (Err UnmarshalTypeError).
Proof. vm_compute. reflexivity. Qed.

(** A repeated [errors] member is decoded into the slice the first one
    left: the element [{}] sets nothing, and the first message stays. *)
Example Gql_repeated_errors :
  toData (H := sampleAny)
    (Ok (InvokeOutput.mk
           (responseText
              (encode (Object [("errors", Array [errorValue "boom"]);
                               ("errors", Array [Object []])]))
              "200" ∅)))
  = Ret (Err (errorString "boom")).
Proof. vm_compute. reflexivity. Qed.
